(** * Verification of the two Python example programs of dive

    - [scripts/openai_example.py]: a straight-line tool-calling
      conversation against a chat-completions API;
    - [examples/workflows/context_example/generate_content.py]: an external
      content generator that reads workflow globals from the environment
      and prints one JSON content block.

    The programs are embedded shallowly.  Python values are an inductive
    type, [str] is a list of Unicode code points, the [json] module is an
    executable scanner and encoder, and the effects of each script (the
    message log, the requests sent, exceptions) are threaded explicitly. *)

From Stdlib Require Import ZArith NArith Lia Bool String Ascii.
From Stdlib Require Import DecimalPos DecimalN DecimalFacts.
From stdpp Require Import gmap list.

Open Scope N_scope.
Set Warnings "-register-all".

(** ** Python strings and values *)

Module Py.

(** A Python [str] is a sequence of code points. *)
Abbreviation pystr := (list N).

(** The number with lowest bit [b] above the bits of [n]. *)
Definition with_bit (b : bool) (n : N) : N :=
  match n, b with
  | N0, false => N0
  | N0, true => Npos xH
  | Npos p, false => Npos (xO p)
  | Npos p, true => Npos (xI p)
  end.

(** The code point of an ASCII character. *)
Definition ch (c : ascii) : N :=
  match c with
  | Ascii b0 b1 b2 b3 b4 b5 b6 b7 =>
    with_bit b0 (with_bit b1 (with_bit b2 (with_bit b3
      (with_bit b4 (with_bit b5 (with_bit b6 (with_bit b7 0)))))))
  end.

(** An ASCII literal of the source, as a [str]. *)
Definition str (s : string) : pystr :=
  List.map ch (list_ascii_of_string s).

Definition dquote : N := 34.
Definition backslash : N := 92.

(** [s1 in s2] on strings: [p] occurs as a contiguous run of [s]. *)
Fixpoint startswith (p s : pystr) : bool :=
  match p, s with
  | [], _ => true
  | _ :: _, [] => false
  | a :: p', b :: s' => (a =? b) && startswith p' s'
  end.

Fixpoint contains (p s : pystr) : bool :=
  startswith p s ||
  match s with
  | [] => false
  | _ :: s' => contains p s'
  end.

(** Floating point numbers are not computed with here.  A float is kept as
    the literal it was read from, and the two operations the programs apply
    to floats are taken from an instance of this class: [float_repr l] is
    the text [json.dumps] writes for the float read from [l] (the shortest
    [repr], or [NaN], [Infinity], [-Infinity]), which is always ASCII, and
    [float_bool l] is its truth value (false for zeros only). *)
Class FloatOps := {
  float_repr : pystr -> pystr;
  float_bool : pystr -> bool;
  float_repr_ascii : forall l, Forall (fun c => c < 128) (float_repr l)
}.

(** The values [json.loads] returns and [json.dumps] accepts, and the
    literals of the two programs.  A [dict] keeps insertion order. *)
Inductive value :=
| VNone
| VBool (b : bool)
| VInt (z : Z)
| VFloat (lexeme : pystr)
| VStr (s : pystr)
| VList (l : list value)
| VDict (d : list (pystr * value)).

Fixpoint pystr_eqb (a b : pystr) : bool :=
  match a, b with
  | [], [] => true
  | x :: a', y :: b' => (x =? y) && pystr_eqb a' b'
  | _, _ => false
  end.

(** [d[k]] for reading: [None] stands for [KeyError]. *)
Fixpoint dict_get (d : list (pystr * value)) (k : pystr) : option value :=
  match d with
  | [] => None
  | (k', v) :: d' => if pystr_eqb k' k then Some v else dict_get d' k
  end.

(** [d[k] = v]: an existing key keeps its position, a new key goes last. *)
Fixpoint dict_set (d : list (pystr * value)) (k : pystr) (v : value)
  : list (pystr * value) :=
  match d with
  | [] => [(k, v)]
  | (k', v') :: d' =>
    if pystr_eqb k' k then (k', v) :: d' else (k', v') :: dict_set d' k v
  end.

(** Truth value testing, as [if x:] does it. *)
Definition truthy {F : FloatOps} (v : value) : bool :=
  match v with
  | VNone => false
  | VBool b => b
  | VInt z => negb (z =? 0)%Z
  | VFloat l => float_bool l
  | VStr s => match s with [] => false | _ => true end
  | VList l => match l with [] => false | _ => true end
  | VDict d => match d with [] => false | _ => true end
  end.

(** Truth value of what [os.getenv] returns: [None] and [''] are false. *)
Definition truthy_optstr (o : option pystr) : bool :=
  match o with
  | None => false
  | Some [] => false
  | Some (_ :: _) => true
  end.

(** An instance to run the script with: a float is printed as the ASCII
    characters of its literal (what Python prints for a literal that is
    already the shortest [repr], such as [2.5]), and is true when its
    mantissa has a non-zero digit or it is [NaN] or an infinity.  It is
    Python's [repr] and [bool] for such literals only, and is used only
    to run scenarios whose values hold no float; the facts about floats
    are proved for every [FloatOps]. *)
Fixpoint mantissa_nonzero (l : pystr) : bool :=
  match l with
  | [] => false
  | c :: l' =>
    if (c =? ch "e") || (c =? ch "E") then false
    else ((49 <=? c) && (c <=? 57)) || (c =? ch "N") || (c =? ch "I")
         || mantissa_nonzero l'
  end.

Lemma filter_ascii_only (l : pystr) :
  List.Forall (fun c => c < 128) (List.filter (fun c => c <? 128) l).
Proof.
  apply List.Forall_forall. intros c Hc. apply filter_In in Hc as [_ Hc].
  apply N.ltb_lt, Hc.
Qed.

Definition literal_floats : FloatOps :=
  {| float_repr := List.filter (fun c => c <? 128);
     float_bool := mantissa_nonzero;
     float_repr_ascii := filter_ascii_only |}.

End Py.

(** ** The [json] module *)

Module Json.
Import Py.

(** *** Encoding: [json.dumps(obj, indent=2)] *)

Definition hexdigit (n : N) : N :=
  if n <? 10 then 48 + n else 87 + n.

(** The escape [\uXXXX] of a 16-bit code unit, in lower case. *)
Definition u_escape (u : N) : pystr :=
  [backslash; ch "u";
   hexdigit (u / 4096 mod 16); hexdigit (u / 256 mod 16);
   hexdigit (u / 16 mod 16); hexdigit (u mod 16)].

(** One character under [ensure_ascii]: the printable ASCII characters
    other than the quote and the backslash stand for themselves. *)
Definition escape_char (c : N) : pystr :=
  if c =? dquote then [backslash; dquote]
  else if c =? backslash then [backslash; backslash]
  else if c =? 10 then [backslash; ch "n"]
  else if c =? 13 then [backslash; ch "r"]
  else if c =? 9 then [backslash; ch "t"]
  else if c =? 8 then [backslash; ch "b"]
  else if c =? 12 then [backslash; ch "f"]
  else if (32 <=? c) && (c <=? 126) then [c]
  else if c <? 65536 then u_escape c
  else
    let v := c - 65536 in
    u_escape (55296 + v / 1024 mod 1024) ++ u_escape (56320 + v mod 1024).

Definition escape (s : pystr) : pystr := concat (List.map escape_char s).

Definition encode_basestring_ascii (s : pystr) : pystr :=
  dquote :: escape s ++ [dquote].

Fixpoint uint_chars (u : Decimal.uint) : pystr :=
  match u with
  | Decimal.Nil => []
  | Decimal.D0 u' => 48 :: uint_chars u'
  | Decimal.D1 u' => 49 :: uint_chars u'
  | Decimal.D2 u' => 50 :: uint_chars u'
  | Decimal.D3 u' => 51 :: uint_chars u'
  | Decimal.D4 u' => 52 :: uint_chars u'
  | Decimal.D5 u' => 53 :: uint_chars u'
  | Decimal.D6 u' => 54 :: uint_chars u'
  | Decimal.D7 u' => 55 :: uint_chars u'
  | Decimal.D8 u' => 56 :: uint_chars u'
  | Decimal.D9 u' => 57 :: uint_chars u'
  end.

(** The decimal digits of a natural number; [0] is written [0]. *)
Definition N_repr (n : N) : pystr := uint_chars (N.to_uint n).

(** [int.__repr__]. *)
Definition int_repr (z : Z) : pystr :=
  match z with
  | Zneg p => ch "-" :: N_repr (Npos p)
  | _ => N_repr (Z.to_N z)
  end.

(** A line break followed by the indentation of nesting level [lvl]. *)
Definition newline_indent (lvl : nat) : pystr :=
  10 :: repeat 32 (2 * lvl).

Section Encoder.
Context {F : FloatOps}.

(** The encoder with [indent=2] and the defaults otherwise: items are
    separated by a comma and a line break, keys from values by a colon and
    a space, empty containers are written [[]] and [{}]. *)
Fixpoint encode (lvl : nat) (v : value) : pystr :=
  match v with
  | VNone => str "null"
  | VBool true => str "true"
  | VBool false => str "false"
  | VInt z => int_repr z
  | VFloat l => float_repr l
  | VStr s => encode_basestring_ascii s
  | VList [] => str "[]"
  | VList (x :: xs) =>
    str "[" ++ newline_indent (S lvl) ++ encode (S lvl) x
    ++ (fix items (l : list value) : pystr :=
          match l with
          | [] => []
          | y :: l' =>
            str "," ++ newline_indent (S lvl) ++ encode (S lvl) y ++ items l'
          end) xs
    ++ newline_indent lvl ++ str "]"
  | VDict [] => str "{}"
  | VDict ((k, x) :: kxs) =>
    str "{" ++ newline_indent (S lvl)
    ++ encode_basestring_ascii k ++ str ": " ++ encode (S lvl) x
    ++ (fix items (l : list (pystr * value)) : pystr :=
          match l with
          | [] => []
          | (k', y) :: l' =>
            str "," ++ newline_indent (S lvl)
            ++ encode_basestring_ascii k' ++ str ": " ++ encode (S lvl) y
            ++ items l'
          end) kxs
    ++ newline_indent lvl ++ str "}"
  end.

Definition dumps_indent2 (v : value) : pystr := encode 0 v.

End Encoder.

(** *** Decoding: [json.loads(s)] *)

(** The outcome of scanning a prefix of the input: the value and the
    unread rest, a [JSONDecodeError], or the recursion budget of this
    model used up (which does not happen in [loads]). *)
Inductive scan (A : Type) :=
| Scanned (a : A) (rest : pystr)
| DecodeError
| OutOfFuel.
Arguments Scanned {A} a rest.
Arguments DecodeError {A}.
Arguments OutOfFuel {A}.

(** The punctuation of JSON, as code points. *)
Definition lbrace : N := 123.
Definition rbrace : N := 125.
Definition lbracket : N := 91.
Definition rbracket : N := 93.
Definition comma : N := 44.
Definition colon : N := 58.
Definition letter_u : N := 117.

Definition is_ws (c : N) : bool :=
  (c =? 32) || (c =? 9) || (c =? 10) || (c =? 13).

Fixpoint skip_ws (s : pystr) : pystr :=
  match s with
  | c :: s' => if is_ws c then skip_ws s' else s
  | [] => []
  end.

Definition is_digit (c : N) : bool := (48 <=? c) && (c <=? 57).

Definition hexval (c : N) : option N :=
  if is_digit c then Some (c - 48)
  else if (97 <=? c) && (c <=? 102) then Some (c - 87)
  else if (65 <=? c) && (c <=? 70) then Some (c - 55)
  else None.

Definition hex4 (a b c d : N) : option N :=
  match hexval a, hexval b, hexval c, hexval d with
  | Some x, Some y, Some z, Some w => Some (4096 * x + 256 * y + 16 * z + w)
  | _, _, _, _ => None
  end.

Definition is_high_surrogate (u : N) : bool := (55296 <=? u) && (u <=? 56319).
Definition is_low_surrogate (u : N) : bool := (56320 <=? u) && (u <=? 57343).
Definition join_surrogates (hi lo : N) : N :=
  65536 + 1024 * (hi - 55296) + (lo - 56320).

(** The character a one-letter escape stands for. *)
Definition simple_escape (e : N) : option N :=
  if e =? dquote then Some dquote
  else if e =? backslash then Some backslash
  else if e =? ch "/" then Some (ch "/")
  else if e =? ch "b" then Some 8
  else if e =? ch "f" then Some 12
  else if e =? ch "n" then Some 10
  else if e =? ch "r" then Some 13
  else if e =? ch "t" then Some 9
  else None.

Definition push (c : N) (r : option (pystr * pystr)) : option (pystr * pystr) :=
  match r with
  | Some (t, rest) => Some (c :: t, rest)
  | None => None
  end.

(** The body of a string literal, from after its opening quote: the
    decoded string and what follows the closing quote.  Control characters
    are refused (strict mode), a high surrogate escape directly followed by
    a low surrogate escape is one character. *)
Fixpoint scanstring (s : pystr) : option (pystr * pystr) :=
  match s with
  | [] => None
  | c :: s1 =>
    if c =? dquote then Some ([], s1)
    else if c =? backslash then
      match s1 with
      | [] => None
      | e :: s2 =>
        if e =? letter_u then
          match s2 with
          | h1 :: h2 :: h3 :: h4 :: s3 =>
            match hex4 h1 h2 h3 h4 with
            | None => None
            | Some u =>
              let alone := push u (scanstring s3) in
              if is_high_surrogate u then
                match s3 with
                | b :: e' :: k1 :: k2 :: k3 :: k4 :: s4 =>
                  if (b =? backslash) && (e' =? letter_u) then
                    match hex4 k1 k2 k3 k4 with
                    | None => None
                    | Some lo =>
                      if is_low_surrogate lo
                      then push (join_surrogates u lo) (scanstring s4)
                      else alone
                    end
                  else alone
                | _ => alone
                end
              else alone
            end
          | _ => None
          end
        else
          match simple_escape e with
          | Some c' => push c' (scanstring s2)
          | None => None
          end
      end
    else if c <? 32 then None
    else push c (scanstring s1)
  end.

(** The longest run of decimal digits at the head of [s], and the rest. *)
Fixpoint span_digits (s : pystr) : pystr * pystr :=
  match s with
  | c :: s' =>
    if is_digit c then let '(ds, r) := span_digits s' in (c :: ds, r)
    else ([], s)
  | [] => ([], [])
  end.

Definition digits_value (ds : pystr) : Z :=
  fold_left (fun acc c => (10 * acc + Z.of_N (c - 48))%Z) ds 0%Z.

(** The integer part of a number: a lone [0], or a run of digits that
    starts with a non-zero digit. *)
Definition scan_intpart (s : pystr) : option (pystr * pystr) :=
  match s with
  | c :: s' =>
    if c =? 48 then Some ([48], s')
    else if is_digit c then Some (span_digits s)
    else None
  | [] => None
  end.

(** An optional fraction: a dot followed by at least one digit. *)
Definition scan_frac (s : pystr) : pystr * pystr :=
  match s with
  | c :: s' =>
    if c =? ch "." then
      match span_digits s' with
      | ([], _) => ([], s)
      | (ds, r) => (c :: ds, r)
      end
    else ([], s)
  | [] => ([], s)
  end.

(** An optional exponent: [e] or [E], an optional sign, at least one digit. *)
Definition scan_exp (s : pystr) : pystr * pystr :=
  match s with
  | c :: s' =>
    if (c =? ch "e") || (c =? ch "E") then
      let '(sign, s'') :=
        match s' with
        | g :: t => if (g =? ch "-") || (g =? ch "+") then ([g], t) else ([], s')
        | [] => ([], s')
        end in
      match span_digits s'' with
      | ([], _) => ([], s)
      | (ds, r) => (c :: sign ++ ds, r)
      end
    else ([], s)
  | [] => ([], s)
  end.

(** A number literal: an [int] when it has neither fraction nor exponent,
    a [float] (kept as its text) otherwise. *)
Definition scan_number (s : pystr) : option (value * pystr) :=
  let '(neg, s0) :=
    match s with
    | c :: s' => if c =? ch "-" then (true, s') else (false, s)
    | [] => (false, s)
    end in
  match scan_intpart s0 with
  | None => None
  | Some (ds, s1) =>
    let '(frac, s2) := scan_frac s1 in
    let '(ex, s3) := scan_exp s2 in
    match frac, ex with
    | [], [] =>
      let z := digits_value ds in
      Some (VInt (if neg then - z else z)%Z, s3)
    | _, _ =>
      Some (VFloat ((if neg then [ch "-"] else []) ++ ds ++ frac ++ ex), s3)
    end
  end.

(** [s] without the prefix [p], when it starts with [p]. *)
Fixpoint strip_prefix (p s : pystr) : option pystr :=
  match p, s with
  | [], _ => Some s
  | a :: p', b :: s' => if a =? b then strip_prefix p' s' else None
  | _ :: _, [] => None
  end.

(** A named constant [p] at the head of [s]. *)
Definition scan_const (p : string) (v : value) (s : pystr)
  : option (value * pystr) :=
  match strip_prefix (str p) s with
  | Some r => Some (v, r)
  | None => None
  end.

Fixpoint first_some {A : Type} (alts : list (option A)) : option A :=
  match alts with
  | [] => None
  | Some a :: _ => Some a
  | None :: alts' => first_some alts'
  end.

(** A value that is neither a string, an object nor an array: one of the
    named constants, or else a number. *)
Definition scan_atom (s : pystr) : scan value :=
  match first_some
          [scan_const "null" VNone s;
           scan_const "true" (VBool true) s;
           scan_const "false" (VBool false) s;
           scan_const "NaN" (VFloat (str "NaN")) s;
           scan_const "Infinity" (VFloat (str "Infinity")) s;
           scan_const "-Infinity" (VFloat (str "-Infinity")) s;
           scan_number s] with
  | Some (v, r) => Scanned v r
  | None => DecodeError
  end.

Section Containers.
(** The scanner for the values inside a container. *)
Variable scan_once : pystr -> scan value.

(** The elements of an array, from its first element on, up to and
    including the closing bracket. *)
Fixpoint scan_elements (m : nat) (acc : list value) (s : pystr) : scan value :=
  match scan_once s with
  | Scanned v s1 =>
    match skip_ws s1 with
    | c :: s2 =>
      if c =? rbracket then Scanned (VList (acc ++ [v])) s2
      else if c =? comma then
        match m with
        | O => OutOfFuel
        | S m' => scan_elements m' (acc ++ [v]) (skip_ws s2)
        end
      else DecodeError
    | [] => DecodeError
    end
  | DecodeError => DecodeError
  | OutOfFuel => OutOfFuel
  end.

(** The members of an object, from its first key on, up to and including
    the closing brace.  A repeated key takes the later value. *)
Fixpoint scan_members (m : nat) (acc : list (pystr * value)) (s : pystr)
  : scan value :=
  match s with
  | q :: s1 =>
    if q =? dquote then
      match scanstring s1 with
      | Some (k, s2) =>
        match skip_ws s2 with
        | c :: s3 =>
          if c =? colon then
            match scan_once (skip_ws s3) with
            | Scanned v s4 =>
              match skip_ws s4 with
              | d :: s5 =>
                if d =? rbrace then Scanned (VDict (dict_set acc k v)) s5
                else if d =? comma then
                  match m with
                  | O => OutOfFuel
                  | S m' => scan_members m' (dict_set acc k v) (skip_ws s5)
                  end
                else DecodeError
              | [] => DecodeError
              end
            | DecodeError => DecodeError
            | OutOfFuel => OutOfFuel
            end
          else DecodeError
        | [] => DecodeError
        end
      | None => DecodeError
      end
    else DecodeError
  | [] => DecodeError
  end.

End Containers.

(** One value at the head of [s]; [n] bounds the nesting depth. *)
Fixpoint scan_once (n : nat) (s : pystr) : scan value :=
  match s with
  | [] => DecodeError
  | c :: s1 =>
    if c =? dquote then
      match scanstring s1 with
      | Some (t, r) => Scanned (VStr t) r
      | None => DecodeError
      end
    else if c =? lbrace then
      match skip_ws s1 with
      | d :: s2 =>
        if d =? rbrace then Scanned (VDict []) s2
        else
          match n with
          | O => OutOfFuel
          | S n' => scan_members (scan_once n') (length s1) [] (skip_ws s1)
          end
      | [] => DecodeError
      end
    else if c =? lbracket then
      match skip_ws s1 with
      | d :: s2 =>
        if d =? rbracket then Scanned (VList []) s2
        else
          match n with
          | O => OutOfFuel
          | S n' => scan_elements (scan_once n') (length s1) [] (skip_ws s1)
          end
      | [] => DecodeError
      end
    else scan_atom s
  end.

(** [json.loads(s)]: leading white space, one value, trailing white space
    and nothing else.  The nesting depth of a text is below its length, so
    the length is budget enough ([JsonFacts.loads_total]). *)
Definition loads_fuel (n : nat) (s : pystr) : scan value :=
  match scan_once n (skip_ws s) with
  | Scanned v r =>
    match skip_ws r with
    | [] => Scanned v []
    | _ :: _ => DecodeError
    end
  | DecodeError => DecodeError
  | OutOfFuel => OutOfFuel
  end.

Definition loads (s : pystr) : scan value := loads_fuel (length s) s.

(** *** The limits of the interpreter

    CPython converts no integer of more than 4300 digits from or to text
    (its default; [ValueError] beyond), and ends a nesting that exhausts
    its stack with [RecursionError].  [encode] and [loads] above stop at
    neither.  A text is within the limits when no run of digits in it is
    longer than 4300 and it has at most 100 opening brackets, which keeps
    the nesting far below the default recursion limit of 1000. *)
Definition int_max_str_digits : nat := 4300.

Definition max_openers : nat := 100.

Fixpoint longest_digit_run (run best : nat) (s : pystr) : nat :=
  match s with
  | [] => Nat.max run best
  | c :: s' =>
    if is_digit c then longest_digit_run (S run) best s'
    else longest_digit_run 0 (Nat.max run best) s'
  end.

Definition openers (s : pystr) : nat :=
  length (List.filter (fun c => (c =? lbracket) || (c =? lbrace)) s).

Definition within_limits (s : pystr) : bool :=
  (longest_digit_run 0 0 s <=? int_max_str_digits)%nat
  && (openers s <=? max_openers)%nat.

End Json.

(** ** The Python exceptions the two programs can end with *)

Inductive exn :=
| JSONDecodeError
| RecursionError
| KeyError
| TypeError
| IndexError
| APIError.

Inductive result (A : Type) :=
| Ok (a : A)
| Raise (e : exn).
Arguments Ok {A} a.
Arguments Raise {A} e.

(** ** [examples/workflows/context_example/generate_content.py] *)

Module GenerateContent.
Import Py Json.

(** What [datetime.now()] returns: a naive local date and time. *)
Record datetime := {
  year : N; month : N; day : N;
  hour : N; minute : N; second : N; microsecond : N
}.

(** [%0wd]: at least [width] digits, padded with zeros on the left. *)
Definition zero_pad (width : nat) (n : N) : pystr :=
  let ds := N_repr n in
  repeat 48 (width - length ds) ++ ds.

(** [datetime.isoformat()]: [YYYY-MM-DDTHH:MM:SS], followed by [.ffffff]
    when the microsecond is not zero. *)
Definition isoformat (d : datetime) : pystr :=
  zero_pad 4 (year d) ++ str "-" ++ zero_pad 2 (month d) ++ str "-"
  ++ zero_pad 2 (day d) ++ str "T"
  ++ zero_pad 2 (hour d) ++ str ":" ++ zero_pad 2 (minute d) ++ str ":"
  ++ zero_pad 2 (second d)
  ++ (if microsecond d =? 0 then [] else str "." ++ zero_pad 6 (microsecond d)).

(** Everything the process could read when it starts. *)
Record process := {
  environ : gmap pystr pystr;
  stdin : pystr;
  argv : list pystr;
  clock : datetime
}.

(** [os.getenv(key)]. *)
Definition getenv (p : process) (key : pystr) : option pystr :=
  environ p !! key.

Definition DIVE_GLOBALS : pystr := str "DIVE_GLOBALS".

Section Script.
Context {F : FloatOps}.

(** [json.loads] as the script calls it; an error is an exception.  The
    budget of [loads] is enough for every text ([JsonFacts.loads_total]),
    so the last case does not occur in the model; where the interpreter
    stops at one of its limits, see [Json.within_limits]. *)
Definition json_loads (s : pystr) : result value :=
  match loads s with
  | Scanned v _ => Ok v
  | DecodeError => Raise JSONDecodeError
  | OutOfFuel => Raise RecursionError
  end.

(** Lines 7-10: [globals_data], the empty dict unless the variable holds
    a non-empty string, then what that string decodes to. *)
Definition read_globals (p : process) : result value :=
  let globals_env := getenv p DIVE_GLOBALS in
  let globals_data := VDict [] in
  if truthy_optstr globals_env
  then json_loads (default [] globals_env)
  else Ok globals_data.

(** The text the content block starts with (line 15). *)
Definition generated_at (now : datetime) : pystr :=
  str "Generated at " ++ isoformat now ++ str " by external Python script".

(** The text of the globals section (line 20). *)
Definition globals_section (globals_data : value) : pystr :=
  [10] ++ str "Workflow globals: " ++ dumps_indent2 globals_data.

(** [d[k] += suffix] for a string [suffix]: a string entry is followed by
    the suffix, a list entry is extended with the characters of the
    suffix, one string each; any other entry has no [+] with a string, and
    a missing key has no entry to read. *)
Definition iadd_str (d : list (pystr * value)) (k suffix : pystr)
  : result (list (pystr * value)) :=
  match dict_get d k with
  | Some (VStr s) => Ok (dict_set d k (VStr (s ++ suffix)))
  | Some (VList l) =>
      Ok (dict_set d k (VList (l ++ List.map (fun c => VStr [c]) suffix)))
  | Some _ => Raise TypeError
  | None => Raise KeyError
  end.

(** Lines 13-20: the content block for the given globals. *)
Definition build_content (now : datetime) (globals_data : value)
  : result (list (pystr * value)) :=
  let content :=
    [(str "type", VStr (str "text"));
     (str "text", VStr (generated_at now))] in
  if truthy globals_data
  then iadd_str content (str "text") (globals_section globals_data)
  else Ok content.

(** The content block the script builds. *)
Definition content_block (p : process) : result (list (pystr * value)) :=
  match read_globals p with
  | Ok globals_data => build_content (clock p) globals_data
  | Raise e => Raise e
  end.

(** [print(s)]: the string and a line break. *)
Definition print (s : pystr) : pystr := s ++ [10].

(** The script: what it writes to standard output, or the exception it
    ends with. *)
Definition main (p : process) : result pystr :=
  match content_block p with
  | Ok content => Ok (print (dumps_indent2 (VDict content)))
  | Raise e => Raise e
  end.

(** What the parent process observes. *)
Record outcome := { stdout : pystr; exit_code : Z }.

(** An uncaught exception ends the interpreter with status 1, before
    anything was printed. *)
Definition run (p : process) : outcome :=
  match main p with
  | Ok out => {| stdout := out; exit_code := 0 |}
  | Raise _ => {| stdout := []; exit_code := 1 |}
  end.

(** A content block of type [text]. *)
Definition text_block (t : pystr) : list (pystr * value) :=
  [(str "type", VStr (str "text")); (str "text", VStr t)].

(** The text of the block, for the globals the script read. *)
Definition text_for (now : datetime) (globals_data : value) : pystr :=
  generated_at now
  ++ (if truthy globals_data then globals_section globals_data else []).

(** The content block a parent reads back from standard output. *)
Definition parsed_block (o : outcome) : option (list (pystr * value)) :=
  match loads (stdout o) with
  | Scanned (VDict d) _ => Some d
  | _ => None
  end.

Definition block_text (o : outcome) : option pystr :=
  match parsed_block o with
  | Some d => match dict_get d (str "text") with
              | Some (VStr t) => Some t
              | _ => None
              end
  | None => None
  end.

End Script.

(** *** Inputs of the scenarios *)

(** The processes of the scenarios: nothing but the clock and, for the
    second, the variable. *)
Definition noon : datetime :=
  {| year := 2024; month := 3; day := 9;
     hour := 12; minute := 0; second := 7; microsecond := 1234 |}.

Definition bare_process : process :=
  {| environ := ∅; stdin := []; argv := []; clock := noon |}.

Definition process_with (globals : pystr) : process :=
  {| environ := {[ DIVE_GLOBALS := globals ]};
     stdin := []; argv := []; clock := noon |}.

(** [{"user":"Alice"}], compact, and as [json.dumps(.., indent=2)] writes
    the same object. *)
Definition quoted (s : string) : pystr := dquote :: str s ++ [dquote].

Definition alice_compact : pystr :=
  str "{" ++ quoted "user" ++ str ":" ++ quoted "Alice" ++ str "}".

Definition alice_indented : pystr :=
  str "{" ++ [10] ++ str "  " ++ quoted "user" ++ str ": " ++ quoted "Alice"
  ++ [10] ++ str "}".

Definition alice : value := VDict [(str "user", VStr (str "Alice"))].



End GenerateContent.

(** ** [scripts/openai_example.py] *)

Module OpenaiExample.
Import Py.

(** Lines 6-23: the tool definitions sent with the first request. *)
Definition tools : list value :=
  [VDict
     [(str "type", VStr (str "function"));
      (str "function",
       VDict
         [(str "name", VStr (str "GoogleSearch"));
          (str "description",
           VStr (str "Search Google for the provided query."));
          (str "parameters",
           VDict
             [(str "type", VStr (str "object"));
              (str "properties",
               VDict [(str "query", VDict [(str "type", VStr (str "string"))])]);
              (str "required", VList [VStr (str "query")]);
              (str "additionalProperties", VBool false)]);
          (str "strict", VBool true)])]].

(** What the client library returns: a completion holds choices, a choice
    a message, and a message that requests tools holds its tool calls
    ([tool_calls] is [None] when the model requested none). *)
Record tool_call := {
  id : pystr;
  function_name : pystr;
  function_arguments : pystr
}.

Record chat_message := {
  role : pystr;
  content : option pystr;
  tool_calls : option (list tool_call)
}.

Record choice := { message : chat_message }.

Record completion := { choices : list choice }.

(** An entry of the message log: a dict literal of the script, or a
    message object of the library appended as it is. *)
Inductive log_entry :=
| Dict (d : list (pystr * value))
| Obj (m : chat_message).

(** The keyword arguments of [client.chat.completions.create]; an omitted
    argument is [None]. *)
Record request := {
  req_model : pystr;
  req_messages : list log_entry;
  req_tools : option (list value);
  req_tool_choice : option pystr
}.

(** The remote model: its answer to the [n]-th request of the run (counted
    from 0), or an exception of the client. *)
Definition api := nat -> request -> result completion.

(** What [print] was given, after the label. *)
Inductive printed :=
| PMessage (m : chat_message)
| PToolCalls (tcs : option (list tool_call))
| PChoice (c : choice).

(** The state the script works on: the list [messages], and a record of
    the requests sent and the lines printed. *)
Record state := {
  messages : list log_entry;
  sent : list request;
  output : list (pystr * printed)
}.

(** A statement: it ends normally with a value or with an exception, and
    leaves a state either way. *)
Definition M (A : Type) : Type := state -> result A * state.

Definition ret {A : Type} (a : A) : M A := fun st => (Ok a, st).

Definition throw {A : Type} (e : exn) : M A := fun st => (Raise e, st).

Definition bind {A B : Type} (m : M A) (k : A -> M B) : M B :=
  fun st =>
    match m st with
    | (Ok a, st') => k a st'
    | (Raise e, st') => (Raise e, st')
    end.

Declare Scope script_scope.
Delimit Scope script_scope with script.
Notation "x <- m ;; k" := (bind m (fun x => k))
  (at level 100, m at next level, right associativity) : script_scope.
Notation "m ;; k" := (bind m (fun _ => k))
  (at level 100, right associativity) : script_scope.
Open Scope script_scope.

(** The current value of [messages]. *)
Definition get_messages : M (list log_entry) :=
  fun st => (Ok (messages st), st).

(** [messages.append(m)]. *)
Definition append (m : log_entry) : M unit :=
  fun st =>
    (Ok tt, {| messages := messages st ++ [m];
               sent := sent st; output := output st |}).

(** [print(label, x)]. *)
Definition print (label : string) (x : printed) : M unit :=
  fun st =>
    (Ok tt, {| messages := messages st; sent := sent st;
               output := output st ++ [(str label, x)] |}).

(** [client.chat.completions.create(...)]: the request is recorded as it
    is sent, and the model's answer or the client's exception comes back. *)
Definition create (model : api) (req : request) : M completion :=
  fun st =>
    (model (length (sent st)) req,
     {| messages := messages st; sent := sent st ++ [req];
        output := output st |}).

(** [l[i]] on a list: [IndexError] out of range. *)
Definition subscript {A : Type} (l : list A) (i : nat) : M A :=
  match l !! i with
  | Some x => ret x
  | None => throw IndexError
  end.

(** [o[i]] where [o] may be [None]: subscripting [None] is a [TypeError]. *)
Definition subscript_optional {A : Type} (o : option (list A)) (i : nat)
  : M A :=
  match o with
  | Some l => subscript l i
  | None => throw TypeError
  end.

(** Lines 43-49: the tool result for [tc]. *)
Definition tool_message (tc : tool_call) : log_entry :=
  Dict [(str "role", VStr (str "tool"));
        (str "tool_call_id", VStr (id tc));
        (str "content", VStr (str "9,033 feet"))].

(** Line 25. *)
Definition initial_messages : list log_entry :=
  [Dict [(str "role", VStr (str "user"));
         (str "content", VStr (str "How tall is Mt. St. Helens?"))]].

Definition initial_state : state :=
  {| messages := initial_messages; sent := []; output := [] |}.

(** Lines 27-56. *)
Definition script (model : api) : M unit :=
  msgs <- get_messages ;;
  completion <- create model
    {| req_model := str "gpt-4o"; req_messages := msgs;
       req_tools := Some tools; req_tool_choice := Some (str "required") |} ;;
  choice <- subscript (choices completion) 0 ;;
  tool_call <- subscript_optional (tool_calls (message choice)) 0 ;;
  print "message:" (PMessage (message choice)) ;;
  print "tool_calls:" (PToolCalls (tool_calls (message choice))) ;;
  append (Obj (message choice)) ;;
  append (tool_message tool_call) ;;
  msgs <- get_messages ;;
  completion <- create model
    {| req_model := str "gpt-4o"; req_messages := msgs;
       req_tools := None; req_tool_choice := None |} ;;
  final <- subscript (choices completion) 0 ;;
  print "completion:" (PChoice final).

(** The run of the script against a model. *)
Definition run (model : api) : result unit * state :=
  script model initial_state.

(** The role of a log entry. *)
Definition entry_role (e : log_entry) : option pystr :=
  match e with
  | Dict d => match dict_get d (str "role") with
              | Some (VStr r) => Some r
              | _ => None
              end
  | Obj m => Some (role m)
  end.

(** The tool call id a log entry answers, for the dict entries. *)
Definition entry_tool_call_id (e : log_entry) : option pystr :=
  match e with
  | Dict d => match dict_get d (str "tool_call_id") with
              | Some (VStr i) => Some i
              | _ => None
              end
  | Obj _ => None
  end.

Definition is_tool_entry (e : log_entry) : bool :=
  match entry_role e with
  | Some r => pystr_eqb r (str "tool")
  | None => false
  end.

(** How many tool-role entries of [l] answer the call [i]. *)
Definition answers (i : pystr) (l : list log_entry) : nat :=
  length (List.filter
            (fun e => is_tool_entry e &&
                      match entry_tool_call_id e with
                      | Some j => pystr_eqb j i
                      | None => false
                      end) l).

(** Reading a tool definition: [t["function"][k]] and, inside the
    parameters, [t["function"]["parameters"][k]]. *)
Definition as_dict (v : value) : option (list (pystr * value)) :=
  match v with
  | VDict d => Some d
  | _ => None
  end.

Definition function_field (t : value) (k : string) : option value :=
  match as_dict t with
  | Some d =>
    match dict_get d (str "function") with
    | Some (VDict f) => dict_get f (str k)
    | _ => None
    end
  | None => None
  end.

Definition parameters_field (t : value) (k : string) : option value :=
  match function_field t "parameters" with
  | Some (VDict ps) => dict_get ps (str k)
  | _ => None
  end.

(** The names of the properties a definition declares. *)
Definition declared_properties (t : value) : list pystr :=
  match parameters_field t "properties" with
  | Some (VDict props) => List.map fst props
  | _ => []
  end.

(** The names a definition lists as required. *)
Definition required_properties (t : value) : list pystr :=
  match parameters_field t "required" with
  | Some (VList l) =>
    List.flat_map (fun v => match v with VStr s => [s] | _ => [] end) l
  | _ => []
  end.

Definition tool_name (t : value) : option value := function_field t "name".

(** *** The requests and the log of a run *)

(** The request of lines 27-32. *)
Definition first_request : request :=
  {| req_model := str "gpt-4o"; req_messages := initial_messages;
     req_tools := Some tools; req_tool_choice := Some (str "required") |}.

(** The log after lines 42-49, for the assistant message [m] and the tool
    call [tc] that was answered. *)
Definition log_after (m : chat_message) (tc : tool_call) : list log_entry :=
  (initial_messages ++ [Obj m]) ++ [tool_message tc].

(** The request of lines 51-54. *)
Definition second_request (m : chat_message) (tc : tool_call) : request :=
  {| req_model := str "gpt-4o"; req_messages := log_after m tc;
     req_tools := None; req_tool_choice := None |}.

(** The state after the first request, when nothing was appended. *)
Definition stopped_early : state :=
  {| messages := initial_messages; sent := [first_request]; output := [] |}.

(** The first tool call of a completion, when the subscripts of lines 34
    and 36 succeed. *)
Definition first_tool_call (c : completion)
  : option (chat_message * tool_call * list tool_call) :=
  match choices c with
  | ch :: _ =>
    match tool_calls (message ch) with
    | Some (tc :: rest) => Some (message ch, tc, rest)
    | _ => None
    end
  | [] => None
  end.

(** *** Models for the scenarios *)

Definition search_call (i : string) : tool_call :=
  {| id := str i; function_name := str "GoogleSearch";
     function_arguments := str "{}" |}.

Definition assistant_requesting (tcs : list tool_call) : completion :=
  {| choices := [ {| message := {| role := str "assistant"; content := None;
                                   tool_calls := Some tcs |} |} ] |}.

Definition assistant_saying (text : string) : completion :=
  {| choices := [ {| message := {| role := str "assistant";
                                   content := Some (str text);
                                   tool_calls := None |} |} ] |}.

(** Requests one search, then answers. *)
Definition one_call_model : api :=
  fun n _ =>
    match n with
    | O => Ok (assistant_requesting [search_call "call_1"])
    | _ => Ok (assistant_saying "Mt. St. Helens is 9,033 feet tall.")
    end.

(** Requests two searches at once, then answers. *)
Definition two_calls_model : api :=
  fun n _ =>
    match n with
    | O => Ok (assistant_requesting [search_call "call_1"; search_call "call_2"])
    | _ => Ok (assistant_saying "Mt. St. Helens is 9,033 feet tall.")
    end.

(** Requests a search in every answer. *)
Definition insatiable_model : api :=
  fun _ _ => Ok (assistant_requesting [search_call "call_1"]).

(** Answers at once, requesting no tool. *)
Definition plain_model : api :=
  fun _ _ => Ok (assistant_saying "About 8,363 feet.").

End OpenaiExample.

(** * Properties *)

(** ** The [json] module *)

Module JsonFacts.
Import Py Json.

(** *** Induction on values, through the lists they nest in *)

Section ValueInduction.
Variable P : value -> Prop.
Hypothesis case_none : P VNone.
Hypothesis case_bool : forall b, P (VBool b).
Hypothesis case_int : forall z, P (VInt z).
Hypothesis case_float : forall l, P (VFloat l).
Hypothesis case_str : forall s, P (VStr s).
Hypothesis case_list : forall l, List.Forall P l -> P (VList l).
Hypothesis case_dict :
  forall d, List.Forall (fun kv => P (snd kv)) d -> P (VDict d).

Fixpoint value_induction (v : value) : P v :=
  match v with
  | VNone => case_none
  | VBool b => case_bool b
  | VInt z => case_int z
  | VFloat l => case_float l
  | VStr s => case_str s
  | VList l =>
    case_list l
      ((fix all (l : list value) : List.Forall P l :=
          match l with
          | [] => @List.Forall_nil _ P
          | x :: l' => @List.Forall_cons _ P x l' (value_induction x) (all l')
          end) l)
  | VDict d =>
    case_dict d
      ((fix all (d : list (pystr * value))
          : List.Forall (fun kv => P (snd kv)) d :=
          match d with
          | [] => @List.Forall_nil _ _
          | kv :: d' =>
            @List.Forall_cons _ _ kv d' (value_induction (snd kv)) (all d')
          end) d)
  end.

End ValueInduction.

(** *** What the encoder writes is ASCII *)

Definition ascii_only (s : pystr) : Prop := List.Forall (fun c => c < 128) s.

Lemma ascii_only_check (s : pystr) :
  forallb (fun c => c <? 128) s = true -> ascii_only s.
Proof.
  intros Hs. apply List.Forall_forall. intros c Hc.
  rewrite forallb_forall in Hs. apply N.ltb_lt, Hs, Hc.
Qed.

Lemma ascii_only_app (s t : pystr) :
  ascii_only s -> ascii_only t -> ascii_only (s ++ t).
Proof. intros Hs Ht. apply List.Forall_app. split; assumption. Qed.

Lemma ascii_only_cons (c : N) (s : pystr) :
  c < 128 -> ascii_only s -> ascii_only (c :: s).
Proof. intros Hc Hs. constructor; assumption. Qed.

Lemma hexdigit_ascii (n : N) : n < 16 -> hexdigit n < 128.
Proof. intros Hn. unfold hexdigit. destruct (n <? 10); lia. Qed.

Lemma u_escape_ascii (u : N) : ascii_only (u_escape u).
Proof.
  unfold u_escape.
  repeat (apply ascii_only_cons;
          [first [apply hexdigit_ascii; apply N.mod_lt; discriminate
                 | reflexivity] |]).
  constructor.
Qed.

Lemma escape_char_ascii (c : N) : ascii_only (escape_char c).
Proof.
  unfold escape_char.
  repeat match goal with
         | |- context [if ?b then _ else _] => destruct b eqn:?
         end;
    try (apply ascii_only_check; reflexivity);
    try apply u_escape_ascii;
    try (apply ascii_only_app; apply u_escape_ascii).
  apply andb_true_iff in Heqb6 as [_ Hle].
  apply N.leb_le in Hle. repeat constructor. lia.
Qed.

Lemma escape_ascii (s : pystr) : ascii_only (escape s).
Proof.
  unfold escape. induction s as [|c s IH]; cbn [List.map concat].
  - constructor.
  - apply ascii_only_app; [apply escape_char_ascii | exact IH].
Qed.

Lemma encode_basestring_ascii_ascii (s : pystr) :
  ascii_only (encode_basestring_ascii s).
Proof.
  unfold encode_basestring_ascii. apply ascii_only_cons; [reflexivity|].
  apply ascii_only_app; [apply escape_ascii | apply ascii_only_check; reflexivity].
Qed.

Lemma uint_chars_digits (u : Decimal.uint) :
  List.Forall (fun c => 48 <= c <= 57) (uint_chars u).
Proof. induction u; cbn [uint_chars]; constructor; (lia || assumption). Qed.

Lemma N_repr_digits (n : N) : List.Forall (fun c => 48 <= c <= 57) (N_repr n).
Proof. apply uint_chars_digits. Qed.

Lemma digits_ascii (s : pystr) :
  List.Forall (fun c => 48 <= c <= 57) s -> ascii_only s.
Proof. apply List.Forall_impl. intros c Hc. lia. Qed.

Lemma int_repr_ascii (z : Z) : ascii_only (int_repr z).
Proof.
  destruct z as [|p|p]; cbn [int_repr];
    [ | | apply ascii_only_cons; [reflexivity|]];
    apply digits_ascii, N_repr_digits.
Qed.

Lemma newline_indent_ascii (lvl : nat) : ascii_only (newline_indent lvl).
Proof.
  unfold newline_indent. apply ascii_only_cons; [reflexivity|].
  apply List.Forall_forall. intros c Hc. apply repeat_spec in Hc. subst c.
  reflexivity.
Qed.

Section EncoderFacts.
Context {F : FloatOps}.

Lemma encode_ascii (v : value) : forall lvl, ascii_only (encode lvl v).
Proof.
  induction v as [| b | z | l | s | l IH | d IH] using value_induction;
    intros lvl.
  - apply ascii_only_check; reflexivity.
  - destruct b; apply ascii_only_check; reflexivity.
  - apply int_repr_ascii.
  - apply float_repr_ascii.
  - apply encode_basestring_ascii_ascii.
  - destruct l as [|x xs]; [apply ascii_only_check; reflexivity|].
    cbn [encode]. inversion IH as [|? ? Hx Hxs]; subst.
    apply ascii_only_app; [apply ascii_only_check; reflexivity|].
    apply ascii_only_app; [apply newline_indent_ascii|].
    apply ascii_only_app; [apply Hx|].
    apply ascii_only_app.
    + clear Hx IH. induction Hxs as [|y ys Hy Hys IHys]; [constructor|].
      apply ascii_only_app; [apply ascii_only_check; reflexivity|].
      apply ascii_only_app; [apply newline_indent_ascii|].
      apply ascii_only_app; [apply Hy | apply IHys].
    + apply ascii_only_app;
        [apply newline_indent_ascii | apply ascii_only_check; reflexivity].
  - destruct d as [|[k x] kxs]; [apply ascii_only_check; reflexivity|].
    cbn [encode]. inversion IH as [|? ? Hx Hxs]; subst. cbn [snd] in Hx.
    apply ascii_only_app; [apply ascii_only_check; reflexivity|].
    apply ascii_only_app; [apply newline_indent_ascii|].
    apply ascii_only_app; [apply encode_basestring_ascii_ascii|].
    apply ascii_only_app; [apply ascii_only_check; reflexivity|].
    apply ascii_only_app; [apply Hx|].
    apply ascii_only_app.
    + clear Hx IH. induction Hxs as [|[k' y] ys Hy Hys IHys]; [constructor|].
      cbn [snd] in Hy.
      apply ascii_only_app; [apply ascii_only_check; reflexivity|].
      apply ascii_only_app; [apply newline_indent_ascii|].
      apply ascii_only_app; [apply encode_basestring_ascii_ascii|].
      apply ascii_only_app; [apply ascii_only_check; reflexivity|].
      apply ascii_only_app; [apply Hy | apply IHys].
    + apply ascii_only_app;
        [apply newline_indent_ascii | apply ascii_only_check; reflexivity].
Qed.

End EncoderFacts.

(** *** Decoding what the encoder wrote for a string *)

Lemma scanstring_escape_char (c : N) (X : pystr) :
  c < 128 -> scanstring (escape_char c ++ X) = push c (scanstring X).
Proof.
  intros Hc. destruct c as [|p]; [reflexivity|].
  do 7 (destruct p as [p|p|]; try reflexivity); lia.
Qed.

Lemma scanstring_escape (t rest : pystr) :
  Forall (fun c => c < 128) t ->
  scanstring (escape t ++ dquote :: rest) = Some (t, rest).
Proof.
  induction 1 as [|c t Hc Ht IH].
  - reflexivity.
  - unfold escape in *. cbn [List.map concat].
    rewrite <- app_assoc, scanstring_escape_char by exact Hc.
    rewrite IH. reflexivity.
Qed.

Lemma scan_two_members (n : nat) (K1 V1 K2 V2 k1 v1 k2 v2 : pystr) :
  scanstring K1 = Some (k1, colon :: 32 :: dquote :: V1) ->
  scanstring V1 = Some (v1, comma :: 10 :: 32 :: 32 :: dquote :: K2) ->
  scanstring K2 = Some (k2, colon :: 32 :: dquote :: V2) ->
  scanstring V2 = Some (v2, [10; rbrace; 10]) ->
  loads_fuel (S (S n)) (lbrace :: 10 :: 32 :: 32 :: dquote :: K1)
  = Scanned (VDict (dict_set (dict_set [] k1 (VStr v1)) k2 (VStr v2))) [].
Proof.
  intros H1 H2 H3 H4. unfold loads_fuel.
  cbn -[scanstring dict_set]. rewrite H1.
  cbn -[scanstring dict_set]. rewrite H2.
  cbn -[scanstring dict_set]. rewrite H3.
  cbn -[scanstring dict_set]. rewrite H4.
  cbn -[scanstring dict_set]. reflexivity.
Qed.

(** *** Scanning consumes input, and the budget of [loads] is enough *)

Lemma skip_ws_length (s : pystr) : (length (skip_ws s) <= length s)%nat.
Proof.
  induction s as [|c s IH]; cbn [skip_ws length]; [lia|].
  destruct (is_ws c); cbn [length]; lia.
Qed.

Lemma push_some (c : N) (r : option (pystr * pystr)) (t rest : pystr) :
  push c r = Some (t, rest) -> exists t', r = Some (t', rest) /\ t = c :: t'.
Proof.
  destruct r as [[t' rest']|]; cbn [push]; intros E; [|discriminate].
  injection E as <- <-. eauto.
Qed.

Lemma scanstring_shorter_upto (n : nat) :
  forall s t r, (length s <= n)%nat ->
    scanstring s = Some (t, r) -> (length r < length s)%nat.
Proof.
  induction n as [|n IH]; intros s t r Hn E.
  - destruct s; [discriminate | cbn [length] in Hn; lia].
  - destruct s as [|c s1]; [discriminate|]. cbn [scanstring] in E.
    cbn [length] in *.
    assert (step : forall c' s' t', (length s' <= n)%nat ->
              push c' (scanstring s') = Some (t', r) -> (length r < length s')%nat).
    { intros c' s' t' Hs' E'. apply push_some in E' as (t'' & E' & _).
      eapply IH; eassumption. }
    repeat match type of E with
           | Some _ = Some _ => injection E as <- <-
           | None = Some _ => discriminate E
           | (if ?b then _ else _) = _ => destruct b
           | match ?x with _ => _ end = _ =>
             match x with
             | scanstring _ => fail 1
             | _ => destruct x eqn:?
             end
           | (let _ := _ in _) = _ => cbv zeta in E
           end;
    try (cbn [length] in *; lia);
    try (apply step in E; cbn [length] in *; lia).
Qed.

Lemma scanstring_shorter (s t r : pystr) :
  scanstring s = Some (t, r) -> (length r < length s)%nat.
Proof. apply (scanstring_shorter_upto (length s)). lia. Qed.

Lemma strip_prefix_length (p s r : pystr) :
  strip_prefix p s = Some r -> length s = (length p + length r)%nat.
Proof.
  revert s. induction p as [|a p IH]; intros s E.
  - cbn in E. injection E as <-. reflexivity.
  - destruct s as [|b s]; [discriminate|]. cbn [strip_prefix] in E.
    destruct (a =? b); [|discriminate]. apply IH in E. cbn [length]. lia.
Qed.

Lemma scan_const_shorter (p : string) (v v' : value) (s r : pystr) :
  p <> EmptyString ->
  scan_const p v s = Some (v', r) -> (length r < length s)%nat.
Proof.
  intros Hp E. unfold scan_const in E.
  destruct (strip_prefix (str p) s) as [r'|] eqn:Es; [|discriminate].
  injection E as _ <-. apply strip_prefix_length in Es.
  destruct p; [contradiction|]. cbn in Es. lia.
Qed.

Lemma span_digits_length (s ds r : pystr) :
  span_digits s = (ds, r) -> length s = (length ds + length r)%nat.
Proof.
  revert ds r. induction s as [|c s IH]; intros ds r E; cbn [span_digits] in E.
  - injection E as <- <-. reflexivity.
  - destruct (is_digit c).
    + destruct (span_digits s) as [ds' r'] eqn:Es. injection E as <- <-.
      specialize (IH _ _ eq_refl). cbn [length]. lia.
    + injection E as <- <-. reflexivity.
Qed.

Lemma scan_intpart_shorter (s ds r : pystr) :
  scan_intpart s = Some (ds, r) -> (length r < length s)%nat.
Proof.
  unfold scan_intpart. destruct s as [|c s']; [discriminate|].
  destruct (c =? 48).
  - intros E. injection E as _ <-. cbn [length]. lia.
  - destruct (is_digit c) eqn:Ec; [|discriminate].
    intros E. injection E as E. cbn [span_digits] in E. rewrite Ec in E.
    destruct (span_digits s') as [ds' r'] eqn:Es. injection E as _ <-.
    apply span_digits_length in Es. cbn [length]. lia.
Qed.

Lemma scan_frac_length (s f r : pystr) :
  scan_frac s = (f, r) -> (length r <= length s)%nat.
Proof.
  unfold scan_frac. destruct s as [|c s'].
  - intros E. injection E as _ <-. lia.
  - destruct (c =? ch "."); [|intros E; injection E as _ <-; lia].
    destruct (span_digits s') as [ds r'] eqn:Es.
    apply span_digits_length in Es.
    destruct ds; intros E; injection E as _ <-; cbn [length] in *; lia.
Qed.

Lemma scan_exp_length (s f r : pystr) :
  scan_exp s = (f, r) -> (length r <= length s)%nat.
Proof.
  unfold scan_exp. destruct s as [|c s'].
  - intros E. injection E as _ <-. lia.
  - destruct ((c =? ch "e") || (c =? ch "E")); [|intros E; injection E as _ <-; lia].
    destruct s' as [|g t].
    + cbn. intros E. injection E as _ <-. cbn [length]. lia.
    + destruct ((g =? ch "-") || (g =? ch "+")).
      * destruct (span_digits t) as [ds r'] eqn:Es.
        apply span_digits_length in Es.
        destruct ds; intros E; injection E as _ <-; cbn [length] in *; lia.
      * destruct (span_digits (g :: t)) as [ds r'] eqn:Es.
        apply span_digits_length in Es.
        destruct ds; intros E; injection E as _ <-; cbn [length] in *; lia.
Qed.

Lemma scan_number_shorter (s r : pystr) (v : value) :
  scan_number s = Some (v, r) -> (length r < length s)%nat.
Proof.
  unfold scan_number.
  set (start := match s with
                | c :: s' => if c =? ch "-" then (true, s') else (false, s)
                | [] => (false, s)
                end).
  assert (Hs : (length (snd start) <= length s)%nat).
  { subst start. destruct s as [|c s']; [cbn; lia|].
    destruct (c =? ch "-"); cbn [snd length]; lia. }
  destruct start as [neg s0]. cbn [snd] in Hs.
  destruct (scan_intpart s0) as [[ds s1]|] eqn:E1; [|discriminate].
  apply scan_intpart_shorter in E1.
  destruct (scan_frac s1) as [frac s2] eqn:E2. apply scan_frac_length in E2.
  destruct (scan_exp s2) as [ex s3] eqn:E3. apply scan_exp_length in E3.
  destruct frac, ex; intros E; injection E as _ <-; lia.
Qed.

Lemma first_some_in {A : Type} (alts : list (option A)) (a : A) :
  first_some alts = Some a -> In (Some a) alts.
Proof.
  induction alts as [|[x|] alts IH]; cbn [first_some]; intros E.
  - discriminate.
  - injection E as ->. left. reflexivity.
  - right. apply IH, E.
Qed.

Lemma scan_atom_shorter (s r : pystr) (v : value) :
  scan_atom s = Scanned v r -> (length r < length s)%nat.
Proof.
  unfold scan_atom.
  destruct (first_some _) as [[v' r']|] eqn:E; [|discriminate].
  intros E'. injection E' as <- <-. apply first_some_in in E.
  cbn [In] in E.
  repeat (destruct E as [E|E];
          [first [ eapply scan_const_shorter; [|exact E]; discriminate
                 | eapply scan_number_shorter; exact E ] |]).
  contradiction.
Qed.

Lemma scan_atom_fuel (s : pystr) : scan_atom s <> OutOfFuel.
Proof. unfold scan_atom. destruct (first_some _) as [[? ?]|]; discriminate. Qed.

Definition consumes (x : scan value) (s : pystr) : Prop :=
  x <> OutOfFuel /\
  forall v r, x = Scanned v r -> (length r < length s)%nat.

Definition sound_upto (b : nat) (sv : pystr -> scan value) : Prop :=
  forall s, (length s <= b)%nat -> consumes (sv s) s.

Lemma consumes_error (s : pystr) : consumes DecodeError s.
Proof. split; [discriminate | intros v r E; discriminate E]. Qed.

Lemma consumes_scanned (v : value) (r s : pystr) :
  (length r < length s)%nat -> consumes (Scanned v r) s.
Proof.
  intros Hr. split; [discriminate|]. intros v' r' E. injection E as _ <-. exact Hr.
Qed.

Lemma consumes_weaken (x : scan value) (s s' : pystr) :
  (length s <= length s')%nat -> consumes x s -> consumes x s'.
Proof.
  intros Hs [Hf Hr]. split; [exact Hf|]. intros v r E.
  specialize (Hr v r E). lia.
Qed.

Lemma skip_ws_cons_length (s s' : pystr) (c : N) :
  skip_ws s = c :: s' -> (length s' < length s)%nat.
Proof.
  intros E. pose proof (skip_ws_length s) as Hs. rewrite E in Hs.
  cbn [length] in Hs. lia.
Qed.

Lemma scan_members_sound (sv : pystr -> scan value) (b : nat) :
  sound_upto b sv ->
  forall m acc s, (length s <= m)%nat -> (length s <= b)%nat ->
    consumes (scan_members sv m acc s) s.
Proof.
  intros Hsv. induction m as [|m IH]; intros acc s Hm Hb.
  - destruct s; [apply consumes_error | cbn [length] in Hm; lia].
  - destruct s as [|q s1]; [apply consumes_error|]. cbn [scan_members].
    cbn [length] in Hm, Hb.
    destruct (q =? dquote); [|apply consumes_error].
    destruct (scanstring s1) as [[k s2]|] eqn:Ek; [|apply consumes_error].
    apply scanstring_shorter in Ek.
    destruct (skip_ws s2) as [|c s3] eqn:E2; [apply consumes_error|].
    apply skip_ws_cons_length in E2.
    destruct (c =? colon); [|apply consumes_error].
    pose proof (skip_ws_length s3) as H3.
    destruct (Hsv (skip_ws s3)) as [Hfuel Hrest]; [lia|].
    destruct (sv (skip_ws s3)) as [v s4| |]; [|apply consumes_error|contradiction].
    specialize (Hrest v s4 eq_refl).
    destruct (skip_ws s4) as [|d s5] eqn:E4; [apply consumes_error|].
    apply skip_ws_cons_length in E4.
    destruct (d =? rbrace); [apply consumes_scanned; cbn [length]; lia|].
    destruct (d =? comma); [|apply consumes_error].
    pose proof (skip_ws_length s5) as H5.
    eapply consumes_weaken; [|apply IH; lia]. cbn [length]. lia.
Qed.

Lemma scan_elements_sound (sv : pystr -> scan value) (b : nat) :
  sound_upto b sv ->
  forall m acc s, (length s <= m)%nat -> (length s <= b)%nat ->
    consumes (scan_elements sv m acc s) s.
Proof.
  intros Hsv. induction m as [|m IH]; intros acc s Hm Hb.
  - destruct (Hsv s Hb) as [Hfuel Hrest]. cbn [scan_elements].
    destruct (sv s) as [v s1| |]; [|apply consumes_error|contradiction].
    specialize (Hrest v s1 eq_refl). lia.
  - destruct (Hsv s Hb) as [Hfuel Hrest]. cbn [scan_elements].
    destruct (sv s) as [v s1| |]; [|apply consumes_error|contradiction].
    specialize (Hrest v s1 eq_refl).
    destruct (skip_ws s1) as [|c s2] eqn:E1; [apply consumes_error|].
    apply skip_ws_cons_length in E1.
    destruct (c =? rbracket); [apply consumes_scanned; lia|].
    destruct (c =? comma); [|apply consumes_error].
    pose proof (skip_ws_length s2) as H2.
    eapply consumes_weaken; [|apply IH; lia]. lia.
Qed.

Lemma scan_once_sound (n : nat) : sound_upto n (scan_once n).
Proof.
  induction n as [|n IH]; intros s Hs.
  - destruct s; [apply consumes_error | cbn [length] in Hs; lia].
  - destruct s as [|c s1]; [apply consumes_error|].
    cbn [scan_once]. cbn [length] in Hs.
    pose proof (skip_ws_length s1) as H1.
    destruct (c =? dquote).
    { destruct (scanstring s1) as [[t r]|] eqn:Et; [|apply consumes_error].
      apply scanstring_shorter in Et. apply consumes_scanned. cbn [length]. lia. }
    destruct (c =? lbrace).
    { destruct (skip_ws s1) as [|d s2] eqn:E1; [apply consumes_error|].
      cbn [length] in H1.
      destruct (d =? rbrace); [apply consumes_scanned; cbn [length]; lia|].
      eapply consumes_weaken;
        [|apply (scan_members_sound _ n IH); cbn [length]; lia].
      cbn [length]. lia. }
    destruct (c =? lbracket).
    { destruct (skip_ws s1) as [|d s2] eqn:E1; [apply consumes_error|].
      cbn [length] in H1.
      destruct (d =? rbracket); [apply consumes_scanned; cbn [length]; lia|].
      eapply consumes_weaken;
        [|apply (scan_elements_sound _ n IH); cbn [length]; lia].
      cbn [length]. lia. }
    split; [apply scan_atom_fuel|]. intros v r E.
    apply scan_atom_shorter in E. exact E.
Qed.

Lemma loads_total (s : pystr) : loads s <> OutOfFuel.
Proof.
  unfold loads, loads_fuel.
  destruct (scan_once_sound (length s) (skip_ws s) (skip_ws_length s))
    as [Hfuel _].
  destruct (scan_once (length s) (skip_ws s)) as [v r| |];
    [destruct (skip_ws r)| |]; congruence.
Qed.

End JsonFacts.

(** ** [generate_content.py] *)

Module GenerateContentFacts.
Import Py Json JsonFacts GenerateContent.

(** *** Strings *)

Lemma startswith_app (p s : pystr) : startswith p (p ++ s) = true.
Proof.
  induction p as [|c p IH]; [reflexivity|]. cbn [startswith app].
  rewrite N.eqb_refl. exact IH.
Qed.

Lemma contains_app (p a b : pystr) : contains p (a ++ p ++ b) = true.
Proof.
  induction a as [|c a IH].
  - cbn [app]. destruct (p ++ b) eqn:E; cbn [contains];
      rewrite <- E, startswith_app; reflexivity.
  - cbn [app contains]. rewrite IH. apply orb_true_r.
Qed.

Lemma startswith_head (c : N) (p s : pystr) :
  startswith (c :: p) s = true -> In c s.
Proof.
  destruct s as [|d s]; cbn [startswith]; [discriminate|].
  intros E. apply andb_true_iff in E as [E _]. apply N.eqb_eq in E.
  left. symmetry. exact E.
Qed.

Lemma contains_head (c : N) (p s : pystr) :
  contains (c :: p) s = true -> In c s.
Proof.
  induction s as [|d s IH]; cbn [contains].
  - rewrite orb_false_r. apply startswith_head.
  - intros E. apply orb_true_iff in E as [E|E].
    + apply startswith_head in E. exact E.
    + right. apply IH, E.
Qed.

(** *** The time stamp *)

Definition stamp_char (c : N) : Prop :=
  48 <= c <= 57 \/ c = ch "-" \/ c = ch "T" \/ c = ch ":" \/ c = ch ".".

Lemma zero_pad_stamp (w : nat) (n : N) :
  List.Forall stamp_char (zero_pad w n).
Proof.
  unfold zero_pad. apply List.Forall_app. split.
  - apply List.Forall_forall. intros c Hc. apply repeat_spec in Hc. subst c.
    left. lia.
  - eapply List.Forall_impl; [|apply N_repr_digits]. intros c Hc. left. exact Hc.
Qed.

Lemma stamp_literal (c : N) :
  (c =? ch "-") || (c =? ch "T") || (c =? ch ":") || (c =? ch ".") = true ->
  List.Forall stamp_char [c].
Proof.
  intros E. constructor; [|constructor]. unfold stamp_char.
  repeat (apply orb_true_iff in E as [E|E]); apply N.eqb_eq in E; tauto.
Qed.

Lemma isoformat_stamp (d : datetime) : List.Forall stamp_char (isoformat d).
Proof.
  unfold isoformat.
  repeat (apply List.Forall_app; split;
          [first [apply zero_pad_stamp | apply stamp_literal; reflexivity]|]).
  destruct (microsecond d =? 0); [constructor|].
  apply List.Forall_app. split;
    [apply stamp_literal; reflexivity | apply zero_pad_stamp].
Qed.

Lemma stamp_char_ascii (c : N) : stamp_char c -> c < 128.
Proof.
  unfold stamp_char, ch. cbn. intros [H|[->|[->|[->| ->]]]]; lia.
Qed.

Lemma generated_at_ascii (now : datetime) : ascii_only (generated_at now).
Proof.
  unfold generated_at.
  apply ascii_only_app; [apply ascii_only_check; reflexivity|].
  apply ascii_only_app; [|apply ascii_only_check; reflexivity].
  eapply List.Forall_impl; [|apply isoformat_stamp].
  apply stamp_char_ascii.
Qed.

Lemma generated_at_no_section (now : datetime) :
  contains (str "Workflow globals") (generated_at now) = false.
Proof.
  destruct (contains _ _) eqn:E; [|reflexivity]. exfalso.
  apply (contains_head 87) in E. unfold generated_at in E.
  apply in_app_or in E as [E|E].
  - cbn in E. repeat (destruct E as [E|E]; [discriminate E|]). exact E.
  - apply in_app_or in E as [E|E].
    + pose proof (isoformat_stamp now) as Hs.
      rewrite List.Forall_forall in Hs. specialize (Hs _ E).
      unfold stamp_char, ch in Hs. cbn in Hs.
      destruct Hs as [H|[H|[H|[H|H]]]]; (lia || discriminate H).
    + cbn in E. repeat (destruct E as [E|E]; [discriminate E|]). exact E.
Qed.

(** *** The script *)

Section ScriptFacts.
Context {F : FloatOps}.

Lemma loads_text_block (t : pystr) :
  ascii_only t ->
  loads (print (dumps_indent2 (VDict (text_block t))))
  = Scanned (VDict (text_block t)) [].
Proof.
  intros Ht. unfold text_block, print, dumps_indent2, loads.
  set (V2 := escape t ++ dquote :: [10; rbrace; 10]).
  set (K2 := escape (str "text") ++ dquote :: colon :: 32 :: dquote :: V2).
  set (V1 := escape (str "text")
             ++ dquote :: comma :: 10 :: 32 :: 32 :: dquote :: K2).
  set (K1 := escape (str "type") ++ dquote :: colon :: 32 :: dquote :: V1).
  assert (E : encode 0 (VDict [(str "type", VStr (str "text"));
                               (str "text", VStr t)]) ++ [10]
              = lbrace :: 10 :: 32 :: 32 :: dquote :: K1).
  { transitivity
      ([lbrace; 10; 32; 32; dquote]
       ++ escape (str "type") ++ dquote :: colon :: 32 :: dquote ::
          escape (str "text") ++ dquote :: comma :: 10 :: 32 :: 32 :: dquote ::
          escape (str "text") ++ dquote :: colon :: 32 :: dquote ::
          (((escape t ++ [dquote]) ++ []) ++ [10; rbrace]) ++ [10]).
    - reflexivity.
    - unfold K1, V1, K2, V2. rewrite app_nil_r, <- !app_assoc. reflexivity. }
  rewrite E. clear E. cbn [length].
  assert (A : ascii_only (str "type")) by (apply ascii_only_check; reflexivity).
  assert (B : ascii_only (str "text")) by (apply ascii_only_check; reflexivity).
  rewrite (scan_two_members _ K1 V1 K2 V2 (str "type") (str "text")
             (str "text") t).
  - reflexivity.
  - apply scanstring_escape, A.
  - apply scanstring_escape, B.
  - apply scanstring_escape, B.
  - apply scanstring_escape, Ht.
Qed.

Lemma build_content_eq (now : datetime) (g : value) :
  build_content now g = Ok (text_block (text_for now g)).
Proof.
  unfold build_content, text_for. destruct (truthy g).
  - reflexivity.
  - rewrite app_nil_r. reflexivity.
Qed.

Lemma content_block_eq (p : process) (g : value) :
  read_globals p = Ok g ->
  content_block p = Ok (text_block (text_for (clock p) g)).
Proof.
  intros E. unfold content_block. rewrite E. apply build_content_eq.
Qed.

Lemma content_block_inv (p : process) (content : list (pystr * value)) :
  content_block p = Ok content ->
  exists g, read_globals p = Ok g /\ content = text_block (text_for (clock p) g).
Proof.
  unfold content_block. destruct (read_globals p) as [g|e]; [|discriminate].
  rewrite build_content_eq. intros E. injection E as <-. eauto.
Qed.

Lemma main_inv (p : process) (out : pystr) :
  main p = Ok out ->
  exists g, read_globals p = Ok g
            /\ out = print (dumps_indent2 (VDict (text_block (text_for (clock p) g)))).
Proof.
  unfold main. destruct (content_block p) as [content|e] eqn:E; [|discriminate].
  apply content_block_inv in E as (g & Eg & ->).
  intros E. injection E as <-. eauto.
Qed.

Lemma globals_section_ascii (g : value) : ascii_only (globals_section g).
Proof.
  unfold globals_section.
  apply ascii_only_app; [apply ascii_only_check; reflexivity|].
  apply ascii_only_app; [apply ascii_only_check; reflexivity|].
  apply encode_ascii.
Qed.

Lemma text_for_ascii (now : datetime) (g : value) : ascii_only (text_for now g).
Proof.
  unfold text_for. apply ascii_only_app; [apply generated_at_ascii|].
  destruct (truthy g); [apply globals_section_ascii | constructor].
Qed.

Lemma run_of_globals (p : process) (g : value) :
  read_globals p = Ok g ->
  run p = {| stdout := print (dumps_indent2 (VDict (text_block (text_for (clock p) g))));
             exit_code := 0 |}
  /\ block_text (run p) = Some (text_for (clock p) g).
Proof.
  intros E. assert (R : run p = {| stdout := print (dumps_indent2 (VDict (text_block (text_for (clock p) g)))); exit_code := 0 |}).
  { unfold run, main. rewrite (content_block_eq p g E). reflexivity. }
  split; [exact R|]. rewrite R. unfold block_text, parsed_block. cbn [stdout].
  rewrite loads_text_block by apply text_for_ascii. reflexivity.
Qed.

Lemma read_globals_absent (p : process) :
  getenv p DIVE_GLOBALS = None -> read_globals p = Ok (VDict []).
Proof. unfold read_globals. intros ->. reflexivity. Qed.

Lemma read_globals_set (p : process) (c : N) (s : pystr) :
  getenv p DIVE_GLOBALS = Some (c :: s) -> read_globals p = json_loads (c :: s).
Proof. unfold read_globals. intros ->. reflexivity. Qed.

(** C3, as the code has it.  With [DIVE_GLOBALS] set to the compact text
    [{"user":"Alice"}] the run succeeds and the text of the block read back
    from standard output is the time stamp line followed by
    [Workflow globals: ] and the object written again with an indent of
    two: that rendering occurs in the text, and it decodes to the object
    the compact text decodes to. *)
Theorem text_holds_globals_reindented (p : process) :
  getenv p DIVE_GLOBALS = Some alice_compact ->
  exit_code (run p) = 0%Z
  /\ block_text (run p)
     = Some (generated_at (clock p) ++ [10] ++ str "Workflow globals: "
             ++ alice_indented)
  /\ (forall t, block_text (run p) = Some t -> contains alice_indented t = true)
  /\ loads alice_indented = loads alice_compact
  /\ loads alice_compact = Scanned alice [].
Proof.
  intros E.
  assert (G : read_globals p = Ok alice) by (rewrite (read_globals_set p _ _ E); reflexivity).
  destruct (run_of_globals p alice G) as [R T].
  assert (T' : block_text (run p)
               = Some (generated_at (clock p) ++ [10] ++ str "Workflow globals: "
                       ++ alice_indented)) by (rewrite T; reflexivity).
  split; [rewrite R; reflexivity|]. split; [exact T'|].
  split; [|split; reflexivity].
  intros t Et.
  assert (Ht : generated_at (clock p) ++ [10] ++ str "Workflow globals: "
               ++ alice_indented = t) by congruence.
  rewrite <- Ht. clear Ht Et.
  replace (generated_at (clock p) ++ [10] ++ str "Workflow globals: "
           ++ alice_indented)
    with ((generated_at (clock p) ++ [10] ++ str "Workflow globals: ")
          ++ alice_indented ++ []).
  - apply contains_app.
  - rewrite app_nil_r, <- !app_assoc. reflexivity.
Qed.

(** C6.  When the script ends without an exception, the exit status is 0
    and standard output decodes, with nothing left over, to one JSON
    object whose [type] is the string [text] and whose [text] is a
    string. *)
Theorem stdout_is_one_text_block (p : process) (out : pystr) :
  main p = Ok out ->
  stdout (run p) = out
  /\ exit_code (run p) = 0%Z
  /\ exists t, loads out
               = Scanned (VDict [(str "type", VStr (str "text"));
                                 (str "text", VStr t)]) [].
Proof.
  intros E. unfold run. rewrite E. cbn [stdout exit_code].
  split; [reflexivity|]. split; [reflexivity|].
  apply main_inv in E as (g & _ & ->).
  exists (text_for (clock p) g). apply loads_text_block, text_for_ascii.
Qed.

(** C4.  A process without [DIVE_GLOBALS] and one where it holds [{}]
    fare alike: the run succeeds with status 0, the block read back has
    the time stamp line as its text, and [Workflow globals] does not occur
    in it.  Whenever the text of the block the script builds is more than
    the time stamp line, the globals it read are true, and for a dict that
    means non-empty. *)
Theorem absent_and_empty_alike (p : process) (content : list (pystr * value)) :
  (getenv p DIVE_GLOBALS = None \/ getenv p DIVE_GLOBALS = Some (str "{}") ->
   main p = Ok (print (dumps_indent2 (VDict (text_block (generated_at (clock p))))))
   /\ exit_code (run p) = 0%Z
   /\ block_text (run p) = Some (generated_at (clock p))
   /\ contains (str "Workflow globals") (generated_at (clock p)) = false)
  /\ (content_block p = Ok content ->
      content <> text_block (generated_at (clock p)) ->
      exists g, read_globals p = Ok g /\ truthy g = true
                /\ content = text_block (generated_at (clock p) ++ globals_section g)
                /\ forall d, g = VDict d -> d <> []).
Proof.
  split.
  - intros E.
    assert (G : read_globals p = Ok (VDict [])).
    { destruct E as [E|E];
        [apply read_globals_absent, E
        | rewrite (read_globals_set p _ _ E); reflexivity]. }
    destruct (run_of_globals p _ G) as [R T].
    unfold text_for in R, T. cbn [truthy] in R, T. rewrite app_nil_r in R, T.
    split; [|split; [rewrite R; reflexivity|split; [exact T|]]].
    + unfold main. rewrite (content_block_eq p _ G).
      unfold text_for. cbn [truthy]. rewrite app_nil_r. reflexivity.
    + apply generated_at_no_section.
  - intros E Hne. apply content_block_inv in E as (g & G & ->).
    unfold text_for in *. destruct (truthy g) eqn:Tg.
    + exists g. repeat split; try assumption.
      intros d -> ->. discriminate Tg.
    + rewrite app_nil_r in Hne. contradiction.
Qed.


End ScriptFacts.

Lemma stdout_is_one_text_block_witness :
  exists out, main (F := literal_floats) bare_process = Ok out
              /\ exit_code (run (F := literal_floats) bare_process) = 0%Z.
Proof.
  eexists. split; [reflexivity|].
  eapply (stdout_is_one_text_block (F := literal_floats) bare_process).
  reflexivity.
Defined.

Lemma absent_and_empty_alike_witness :
  block_text (run (F := literal_floats) bare_process) = Some (generated_at noon)
  /\ block_text (run (F := literal_floats) (process_with (str "{}")))
     = Some (generated_at noon)
  /\ exists g, read_globals (process_with alice_compact) = Ok g
               /\ truthy (F := literal_floats) g = true.
Proof.
  split; [|split].
  - apply (absent_and_empty_alike (F := literal_floats) bare_process []).
    left. reflexivity.
  - apply (absent_and_empty_alike (F := literal_floats)
             (process_with (str "{}")) []).
    right. reflexivity.
  - destruct (absent_and_empty_alike (F := literal_floats)
                (process_with alice_compact)
                (text_block (text_for (F := literal_floats) noon alice)))
      as [_ Hc].
    destruct Hc as (g & Hg & Tg & _); [reflexivity | discriminate |].
    exists g. split; assumption.
Defined.


(** The witness of [text_holds_globals_reindented]. *)
Lemma text_holds_globals_reindented_witness :
  getenv (process_with alice_compact) DIVE_GLOBALS = Some alice_compact
  /\ block_text (run (F := literal_floats) (process_with alice_compact))
     = Some (generated_at noon ++ [10] ++ str "Workflow globals: "
             ++ alice_indented).
Proof.
  split; [reflexivity|].
  apply (text_holds_globals_reindented (F := literal_floats)
           (process_with alice_compact)).
  reflexivity.
Defined.

(** C3 as stated fails: the compact text does not occur in the text of
    the block. *)
Lemma compact_globals_not_verbatim :
  exists t, block_text (run (F := literal_floats) (process_with alice_compact)) = Some t
            /\ contains alice_compact t = false.
Proof. eexists. split; vm_compute; reflexivity. Qed.

End GenerateContentFacts.

(** ** [openai_example.py] *)

Module OpenaiExampleFacts.
Import Py OpenaiExample.

(** *** The course of a run *)

Lemma run_client_error (model : api) (e : exn) :
  model 0%nat first_request = Raise e -> run model = (Raise e, stopped_early).
Proof.
  intros E. unfold run, script, bind, get_messages, create. cbn -[str tools initial_messages].
  fold first_request. rewrite E. reflexivity.
Qed.

Lemma run_no_tool_call (model : api) (c : completion) :
  model 0%nat first_request = Ok c ->
  first_tool_call c = None ->
  run model = (Raise (match choices c with
                      | ch :: _ => match tool_calls (message ch) with
                                   | None => TypeError
                                   | Some _ => IndexError
                                   end
                      | [] => IndexError
                      end), stopped_early).
Proof.
  intros E N. unfold run, script, bind, get_messages, create. cbn -[str tools initial_messages].
  fold first_request. rewrite E. unfold first_tool_call in N.
  destruct (choices c) as [|ch chs]; [reflexivity|]. cbn -[str tools initial_messages].
  destruct (tool_calls (message ch)) as [[|tc rest]|];
    [reflexivity | discriminate | reflexivity].
Qed.

Lemma run_tool_call (model : api) (c : completion)
      (m : chat_message) (tc : tool_call) (rest : list tool_call) :
  model 0%nat first_request = Ok c ->
  first_tool_call c = Some (m, tc, rest) ->
  messages (snd (run model)) = log_after m tc
  /\ sent (snd (run model)) = [first_request; second_request m tc]
  /\ fst (run model)
     = match model 1%nat (second_request m tc) with
       | Raise e => Raise e
       | Ok c2 => match choices c2 with
                  | [] => Raise IndexError
                  | _ :: _ => Ok tt
                  end
       end.
Proof.
  intros E T. unfold run, script, bind, get_messages, create. cbn -[str tools initial_messages].
  fold first_request. rewrite E. unfold first_tool_call in T.
  destruct (choices c) as [|ch chs]; [discriminate|]. cbn -[str tools initial_messages].
  destruct (tool_calls (message ch)) as [[|tc' rest']|]; try discriminate.
  injection T as <- <- <-. cbn -[str tools initial_messages].
  fold (log_after (message ch) tc'). fold (second_request (message ch) tc').
  destruct (model 1%nat (second_request (message ch) tc')) as [c2|e];
    [|repeat split; reflexivity].
  destruct (choices c2); repeat split; reflexivity.
Qed.

Lemma log_after_entries (m : chat_message) (tc : tool_call) :
  log_after m tc = initial_messages ++ [Obj m; tool_message tc].
Proof. unfold log_after. rewrite <- app_assoc. reflexivity. Qed.

(** Every run is of one of three kinds. *)
Lemma run_kinds (model : api) :
  (exists e, run model = (Raise e, stopped_early))
  \/ exists c m tc rest,
       model 0%nat first_request = Ok c
       /\ first_tool_call c = Some (m, tc, rest)
       /\ messages (snd (run model)) = log_after m tc
       /\ sent (snd (run model)) = [first_request; second_request m tc].
Proof.
  destruct (model 0%nat first_request) as [c|e] eqn:E.
  - destruct (first_tool_call c) as [[[m tc] rest]|] eqn:T.
    + right. exists c, m, tc, rest.
      destruct (run_tool_call model c m tc rest E T) as (Hm & Hs & _).
      repeat split; assumption.
    + left. eexists. apply (run_no_tool_call model c E T).
  - left. exists e. apply run_client_error, E.
Qed.

Lemma first_tool_call_inv (c : completion) (m : chat_message)
      (tc : tool_call) (rest : list tool_call) :
  first_tool_call c = Some (m, tc, rest) -> tool_calls m = Some (tc :: rest).
Proof.
  unfold first_tool_call. destruct (choices c) as [|ch chs]; [discriminate|].
  destruct (tool_calls (message ch)) as [[|tc' rest']|] eqn:E; try discriminate.
  intros T. injection T as <- <- <-. exact E.
Qed.

(** C1, as the code has it.  When the script has appended to the log, it
    has appended the assistant message and after it exactly one tool
    result, which answers the first tool call of that message; this is the
    log the next request carries.  The number of tool results equals the
    number of tool calls exactly when the message holds one tool call. *)
Theorem one_result_for_first_call (model : api) :
  messages (snd (run model)) <> initial_messages ->
  exists m tc rest,
    tool_calls m = Some (tc :: rest)
    /\ messages (snd (run model))
       = initial_messages ++ Obj m :: [tool_message tc]
    /\ answers (id tc) [tool_message tc] = 1%nat
    /\ (length [tool_message tc] = length (tc :: rest) <-> rest = [])
    /\ (forall r, sent (snd (run model)) !! 1%nat = Some r ->
                  req_messages r = messages (snd (run model))).
Proof.
  intros Hne. destruct (run_kinds model) as [[e R]|(c & m & tc & rest & E & T & Hm & Hs)].
  - rewrite R in Hne. contradiction.
  - exists m, tc, rest. split; [eapply first_tool_call_inv, T|].
    split; [rewrite Hm; apply log_after_entries|].
    split.
    { unfold answers, tool_message, is_tool_entry, entry_role,
        entry_tool_call_id. cbn -[str].
      assert (Hid : forall s, pystr_eqb s s = true).
      { induction s as [|x s IH]; [reflexivity|]. cbn [pystr_eqb].
        rewrite N.eqb_refl. exact IH. }
      change (pystr_eqb (str "role") (str "role")) with true. cbv iota.
      change (pystr_eqb (str "role") (str "tool_call_id")) with false.
      change (pystr_eqb (str "tool_call_id") (str "tool_call_id")) with true.
      change (pystr_eqb (str "tool") (str "tool")) with true.
      cbv iota. rewrite Hid. reflexivity. }
    split.
    { cbn [length]. split; [|intros ->; reflexivity].
      destruct rest; [reflexivity | cbn [length]; lia]. }
    intros r Hr. rewrite Hs in Hr. cbn in Hr. injection Hr as <-.
    rewrite Hm. reflexivity.
Qed.

(** C2, as the code has it.  The first request carries the initial log,
    the tool definitions and the choice [required]; the second request,
    when one is sent, carries the whole log as it is then, and neither
    tools nor a tool choice. *)
Theorem requests_sent (model : api) :
  (sent (snd (run model)) = [first_request]
   \/ exists r, sent (snd (run model)) = [first_request; r]
                /\ req_messages r = messages (snd (run model))
                /\ req_tools r = None /\ req_tool_choice r = None)
  /\ req_messages first_request = initial_messages
  /\ req_tools first_request = Some tools
  /\ req_tool_choice first_request = Some (str "required").
Proof.
  split; [|repeat split].
  destruct (run_kinds model) as [[e R]|(c & m & tc & rest & E & T & Hm & Hs)].
  - left. rewrite R. reflexivity.
  - right. exists (second_request m tc). rewrite Hs, Hm. repeat split.
Qed.

(** C2 as stated fails: a request is sent without the tool definitions. *)
Lemma second_request_without_tools :
  exists r, In r (sent (snd (run one_call_model)))
            /\ req_messages r = messages (snd (run one_call_model))
            /\ req_tools r <> Some tools.
Proof.
  exists (second_request
            {| role := str "assistant"; content := None;
               tool_calls := Some [search_call "call_1"] |}
            (search_call "call_1")).
  split; [right; left; reflexivity|]. split; [reflexivity | discriminate].
Qed.

(** C1 as stated fails: two tool calls get one tool result, and the second
    call gets none. *)
Lemma two_calls_one_result :
  exists m,
    messages (snd (run two_calls_model))
    = initial_messages ++ Obj m :: [tool_message (search_call "call_1")]
    /\ tool_calls m = Some [search_call "call_1"; search_call "call_2"]
    /\ fst (run two_calls_model) = Ok tt
    /\ answers (str "call_2") (messages (snd (run two_calls_model))) = 0%nat.
Proof. eexists. repeat split. Qed.

Lemma one_result_for_first_call_witness :
  messages (snd (run one_call_model)) <> initial_messages
  /\ exists m tc rest,
       tool_calls m = Some (tc :: rest)
       /\ messages (snd (run one_call_model))
          = initial_messages ++ Obj m :: [tool_message tc]
       /\ answers (id tc) [tool_message tc] = 1%nat
       /\ (length [tool_message tc] = length (tc :: rest) <-> rest = [])
       /\ (forall r, sent (snd (run one_call_model)) !! 1%nat = Some r ->
                     req_messages r = messages (snd (run one_call_model))).
Proof.
  split; [discriminate|].
  apply (one_result_for_first_call one_call_model). discriminate.
Defined.

(** C5.  The log after a run is the initial log, or the initial log, the
    assistant message and one dict with exactly the keys [role],
    [tool_call_id] and [content], in which the role is [tool], the id is
    that of the first tool call of that assistant message and the content
    is a string.  No other dict of the log has the role [tool]. *)
Theorem tool_result_wire_shape (model : api) :
  (messages (snd (run model)) = initial_messages
   \/ exists m tc rest text,
        tool_calls m = Some (tc :: rest)
        /\ messages (snd (run model))
           = initial_messages
             ++ [Obj m;
                 Dict [(str "role", VStr (str "tool"));
                       (str "tool_call_id", VStr (id tc));
                       (str "content", VStr text)]])
  /\ forall d, In (Dict d) (messages (snd (run model))) ->
               is_tool_entry (Dict d) = true ->
               exists i text,
                 d = [(str "role", VStr (str "tool"));
                      (str "tool_call_id", VStr i);
                      (str "content", VStr text)].
Proof.
  destruct (run_kinds model) as [[e R]|(c & m & tc & rest & E & T & Hm & Hs)].
  - rewrite R. cbn [snd messages stopped_early]. split; [left; reflexivity|].
    intros d [Hd|[]] Ht. injection Hd as <-. discriminate Ht.
  - rewrite Hm, log_after_entries. split.
    + right. exists m, tc, rest, (str "9,033 feet").
      split; [eapply first_tool_call_inv, T | reflexivity].
    + intros d Hd Ht. apply in_app_or in Hd as [[Hd|[]]|[Hd|[Hd|[]]]].
      * injection Hd as <-. discriminate Ht.
      * discriminate Hd.
      * injection Hd as <-. eauto.
Qed.

(** C7.  A tool definition of the script that sets [strict] forbids
    additional properties and requires every property it declares; the
    [GoogleSearch] definition is one. *)
Theorem strict_tools_closed (t : value) :
  In t tools ->
  function_field t "strict" = Some (VBool true) ->
  parameters_field t "additionalProperties" = Some (VBool false)
  /\ (forall k, In k (declared_properties t) -> In k (required_properties t))
  /\ exists g, In g tools
               /\ tool_name g = Some (VStr (str "GoogleSearch"))
               /\ function_field g "strict" = Some (VBool true).
Proof.
  intros [<-|[]] _. split; [reflexivity|]. split.
  - intros k Hk. exact Hk.
  - eexists. split; [left; reflexivity|]. split; reflexivity.
Qed.

Lemma strict_tools_closed_witness :
  In (hd VNone tools) tools
  /\ function_field (hd VNone tools) "strict" = Some (VBool true)
  /\ parameters_field (hd VNone tools) "additionalProperties"
     = Some (VBool false).
Proof.
  split; [left; reflexivity|]. split; [reflexivity|].
  apply (strict_tools_closed (hd VNone tools)); [left; reflexivity | reflexivity].
Defined.

(** C10.  The first request asks for [tool_choice="required"].  When its
    answer has a first choice, the subscript on [tool_calls] yields a tool
    call exactly when the message holds at least one: the script then goes
    on to append to the log.  On [None] it ends with [TypeError], on an
    empty list with [IndexError], and the log is as it was. *)
Theorem first_tool_call_unguarded (model : api) (c : completion) (ch : choice) :
  model 0%nat first_request = Ok c ->
  choices c !! 0%nat = Some ch ->
  req_tool_choice first_request = Some (str "required")
  /\ (forall st, (exists tc, subscript_optional (tool_calls (message ch)) 0 st
                             = (Ok tc, st))
                 <-> exists tc rest, tool_calls (message ch) = Some (tc :: rest))
  /\ ((exists tc rest, tool_calls (message ch) = Some (tc :: rest))
      <-> messages (snd (run model)) <> initial_messages)
  /\ (tool_calls (message ch) = None ->
      run model = (Raise TypeError, stopped_early))
  /\ (tool_calls (message ch) = Some [] ->
      run model = (Raise IndexError, stopped_early)).
Proof.
  intros E Hch. destruct (choices c) as [|ch' chs] eqn:Ec; [discriminate|].
  cbn in Hch. injection Hch as ->.
  split; [reflexivity|]. split; [|split; [|split]].
  - intros st. destruct (tool_calls (message ch)) as [[|tc rest]|]; cbn.
    + split; [intros [tc Ht]; discriminate | intros (tc & rest & Ht); discriminate].
    + split; eauto.
    + split; [intros [tc Ht]; discriminate | intros (tc & rest & Ht); discriminate].
  - split.
    + intros (tc & rest & Ht).
      assert (T : first_tool_call c = Some (message ch, tc, rest))
        by (unfold first_tool_call; rewrite Ec, Ht; reflexivity).
      destruct (run_tool_call model c _ _ _ E T) as (Hm & _).
      rewrite Hm, log_after_entries. intros Heq.
      apply (f_equal (@length _)) in Heq. rewrite length_app in Heq.
      cbn [length] in Heq. lia.
    + intros Hne. destruct (tool_calls (message ch)) as [[|tc rest]|] eqn:Ht; eauto.
      * exfalso. apply Hne.
        rewrite (run_no_tool_call model c E);
          [reflexivity | unfold first_tool_call; rewrite Ec, Ht; reflexivity].
      * exfalso. apply Hne.
        rewrite (run_no_tool_call model c E);
          [reflexivity | unfold first_tool_call; rewrite Ec, Ht; reflexivity].
  - intros Ht. rewrite (run_no_tool_call model c E);
      [rewrite Ec, Ht; reflexivity
      | unfold first_tool_call; rewrite Ec, Ht; reflexivity].
  - intros Ht. rewrite (run_no_tool_call model c E);
      [rewrite Ec, Ht; reflexivity
      | unfold first_tool_call; rewrite Ec, Ht; reflexivity].
Qed.

Lemma first_tool_call_unguarded_witness :
  plain_model 0%nat first_request = Ok (assistant_saying "About 8,363 feet.")
  /\ run plain_model = (Raise TypeError, stopped_early).
Proof.
  split; [reflexivity|].
  eapply (first_tool_call_unguarded plain_model); reflexivity.
Defined.

(** C8, as the code has it.  The script sends at most two requests and
    has no limit to exceed: when every answer requests a tool it still
    ends normally after the second request.  An exception it ends with was
    raised by the client or is the [IndexError] or [TypeError] of a
    subscript, and the log then holds the initial message and, after it,
    all that was appended. *)
Theorem no_turn_limit (model : api) :
  (length (sent (snd (run model))) <= 2)%nat
  /\ (messages (snd (run model)) = initial_messages
      \/ exists m tc, messages (snd (run model))
                      = initial_messages ++ [Obj m; tool_message tc])
  /\ (forall e, fst (run model) = Raise e ->
                (exists n r, model n r = Raise e)
                \/ e = IndexError \/ e = TypeError)
  /\ ((forall n r, exists c m tc rest,
          model n r = Ok c /\ first_tool_call c = Some (m, tc, rest)) ->
      fst (run model) = Ok tt
      /\ length (sent (snd (run model))) = 2%nat).
Proof.
  split; [|split; [|split]].
  - destruct (run_kinds model) as [[e R]|(c & m & tc & rest & _ & _ & _ & Hs)];
      [rewrite R | rewrite Hs]; cbn; lia.
  - destruct (run_kinds model) as [[e R]|(c & m & tc & rest & _ & _ & Hm & _)].
    + left. rewrite R. reflexivity.
    + right. exists m, tc. rewrite Hm. apply log_after_entries.
  - intros e He. destruct (model 0%nat first_request) as [c|e0] eqn:E.
    + destruct (first_tool_call c) as [[[m tc] rest]|] eqn:T.
      * destruct (run_tool_call model c m tc rest E T) as (_ & _ & Hr).
        rewrite Hr in He.
        destruct (model 1%nat (second_request m tc)) as [c2|e2] eqn:E2.
        -- destruct (choices c2); [|discriminate].
           injection He as <-. right. left. reflexivity.
        -- injection He as <-. left. eauto.
      * rewrite (run_no_tool_call model c E T) in He. cbn [fst] in He.
        injection He as <-. right.
        destruct (choices c) as [|ch chs]; [left; reflexivity|].
        destruct (tool_calls (message ch)); [left | right]; reflexivity.
    + rewrite (run_client_error model e0 E) in He. injection He as <-.
      left. eauto.
  - intros Hall.
    destruct (Hall 0%nat first_request) as (c & m & tc & rest & E & T).
    destruct (run_tool_call model c m tc rest E T) as (Hm & Hs & Hr).
    rewrite Hr, Hs. split; [|reflexivity].
    destruct (Hall 1%nat (second_request m tc))
      as (c2 & m2 & tc2 & rest2 & E2 & T2).
    rewrite E2. unfold first_tool_call in T2.
    destruct (choices c2); [discriminate | reflexivity].
Qed.

Lemma no_turn_limit_witness :
  (forall n r, exists c m tc rest,
      insatiable_model n r = Ok c /\ first_tool_call c = Some (m, tc, rest))
  /\ fst (run insatiable_model) = Ok tt
  /\ length (sent (snd (run insatiable_model))) = 2%nat.
Proof.
  assert (Hall : forall n r, exists c m tc rest,
             insatiable_model n r = Ok c
             /\ first_tool_call c = Some (m, tc, rest)).
  { intros n r. do 4 eexists. split; reflexivity. }
  split; [exact Hall|].
  destruct (no_turn_limit insatiable_model) as (_ & _ & _ & Hlast).
  apply Hlast, Hall.
Defined.

(** C8 as stated fails: after two requests, each answered with a tool
    call, the script ends without an exception. *)
Lemma no_limit_error_raised :
  length (sent (snd (run insatiable_model))) = 2%nat
  /\ (forall n r, exists tc,
         first_tool_call (assistant_requesting [search_call "call_1"])
         = Some ({| role := str "assistant"; content := None;
                    tool_calls := Some [search_call "call_1"] |}, tc, [])
         /\ insatiable_model n r
            = Ok (assistant_requesting [search_call "call_1"]))
  /\ ~ exists e, fst (run insatiable_model) = Raise e.
Proof.
  split; [reflexivity|]. split.
  - intros n r. eexists. split; reflexivity.
  - intros [e He]. discriminate He.
Qed.

End OpenaiExampleFacts.

(** * Further properties

    The limits of the interpreter (its recursion limit, the cap on the
    digits of an integer) are not part of the model of [json]: where
    Python would stop at one of them, the model goes on.  What is said
    below of texts that hold numbers or nested values is therefore said of
    texts within the limits ([Json.within_limits]). *)

(** ** Reading back what [json.dumps] wrote *)

Module JsonMore.
Import Py Json JsonFacts.

Lemma pystr_eqb_eq (a b : pystr) : pystr_eqb a b = true <-> a = b.
Proof.
  revert b. induction a as [|x a IH]; intros [|y b]; cbn [pystr_eqb];
    try (split; [discriminate | intros E; discriminate E]).
  - split; reflexivity.
  - rewrite andb_true_iff, N.eqb_eq, IH. split.
    + intros [-> ->]. reflexivity.
    + intros E. injection E as -> ->. split; reflexivity.
Qed.

Lemma pystr_eqb_neq (a b : pystr) : pystr_eqb a b = false <-> a <> b.
Proof.
  rewrite <- pystr_eqb_eq. destruct (pystr_eqb a b); split; congruence.
Qed.

(** *** Item assignment on a dict *)

Lemma dict_get_set_same (d : list (pystr * value)) (k : pystr) (v : value) :
  dict_get (dict_set d k v) k = Some v.
Proof.
  assert (Hk : pystr_eqb k k = true) by (apply pystr_eqb_eq; reflexivity).
  induction d as [|[k0 v0] d IH]; cbn [dict_set dict_get].
  - rewrite Hk. reflexivity.
  - destruct (pystr_eqb k0 k) eqn:E0; cbn [dict_get]; rewrite E0;
      [reflexivity | exact IH].
Qed.

Lemma dict_get_set_other (d : list (pystr * value)) (k k' : pystr) (v : value) :
  k' <> k -> dict_get (dict_set d k v) k' = dict_get d k'.
Proof.
  intros Hne. induction d as [|[k0 v0] d IH]; cbn [dict_set dict_get].
  - assert (E : pystr_eqb k k' = false)
      by (apply pystr_eqb_neq; congruence).
    rewrite E. reflexivity.
  - destruct (pystr_eqb k0 k) eqn:E0; cbn [dict_get].
    + apply pystr_eqb_eq in E0. subst k0.
      assert (E : pystr_eqb k k' = false)
        by (apply pystr_eqb_neq; congruence).
      rewrite E. reflexivity.
    + rewrite IH. reflexivity.
Qed.

Lemma dict_set_keys_present (d : list (pystr * value)) (k : pystr) (v : value) :
  dict_get d k <> None ->
  List.map fst (dict_set d k v) = List.map fst d.
Proof.
  induction d as [|[k0 v0] d IH]; cbn [dict_set dict_get List.map fst].
  - congruence.
  - destruct (pystr_eqb k0 k) eqn:E0; cbn [List.map fst]; [reflexivity|].
    intros Hd. rewrite (IH Hd). reflexivity.
Qed.

Lemma dict_set_keys_absent (d : list (pystr * value)) (k : pystr) (v : value) :
  dict_get d k = None ->
  List.map fst (dict_set d k v) = List.map fst d ++ [k].
Proof.
  induction d as [|[k0 v0] d IH]; cbn [dict_set dict_get List.map fst app].
  - reflexivity.
  - destruct (pystr_eqb k0 k) eqn:E0; cbn [List.map fst]; [discriminate|].
    intros Hd. rewrite (IH Hd). reflexivity.
Qed.

(** *** Decoding errors *)

Lemma skip_ws_blank (s : pystr) :
  List.Forall (fun c => is_ws c = true) s -> skip_ws s = [].
Proof.
  induction 1 as [|c s Hc Hs IH]; [reflexivity|].
  cbn [skip_ws]. rewrite Hc. exact IH.
Qed.

Lemma scan_once_nil (n : nat) : scan_once n [] = DecodeError.
Proof. destruct n; reflexivity. Qed.

Lemma loads_blank (s : pystr) :
  List.Forall (fun c => is_ws c = true) s -> loads s = DecodeError.
Proof.
  intros Hs. unfold loads, loads_fuel. rewrite (skip_ws_blank s Hs).
  rewrite scan_once_nil. reflexivity.
Qed.

Lemma loads_nothing_left (s r : pystr) (v : value) :
  loads s = Scanned v r -> r = [].
Proof.
  unfold loads, loads_fuel.
  destruct (scan_once (length s) (skip_ws s)) as [v' r'| |]; try discriminate.
  destruct (skip_ws r'); [|discriminate]. intros E. injection E as _ <-.
  reflexivity.
Qed.

(** *** Strings of Unicode scalar values *)

(** A code point that is not a surrogate. *)
Definition scalar (c : N) : Prop :=
  c < 1114112 /\ ~ (55296 <= c <= 57343).

(** [lia], with the quotients and remainders taken as unknowns. *)
Ltac lia_divmod :=
  repeat match goal with
         | |- context [N.modulo ?a ?b] =>
           let r := fresh "r" in set (r := N.modulo a b) in *; clearbody r
         | |- context [N.div ?a ?b] =>
           let q := fresh "q" in set (q := N.div a b) in *; clearbody q
         | H : context [N.modulo ?a ?b] |- _ =>
           let r := fresh "r" in set (r := N.modulo a b) in *; clearbody r
         | H : context [N.div ?a ?b] |- _ =>
           let q := fresh "q" in set (q := N.div a b) in *; clearbody q
         end;
  lia.

Lemma hexval_hexdigit (n : N) : n < 16 -> hexval (hexdigit n) = Some n.
Proof.
  intros Hn. destruct n as [|p]; [reflexivity|].
  do 4 (destruct p as [p|p|]; try reflexivity); lia.
Qed.

Lemma hex4_u_escape (u : N) :
  u < 65536 ->
  hex4 (hexdigit (u / 4096 mod 16)) (hexdigit (u / 256 mod 16))
       (hexdigit (u / 16 mod 16)) (hexdigit (u mod 16)) = Some u.
Proof.
  intros Hu. unfold hex4.
  rewrite !hexval_hexdigit by (apply N.mod_lt; discriminate).
  f_equal.
  assert (E1 : u = 16 * (u / 16) + u mod 16) by (apply N.div_mod; discriminate).
  assert (E2 : u / 16 = 16 * (u / 16 / 16) + u / 16 mod 16)
    by (apply N.div_mod; discriminate).
  assert (E3 : u / 16 / 16 = 16 * (u / 16 / 16 / 16) + u / 16 / 16 mod 16)
    by (apply N.div_mod; discriminate).
  assert (D2 : u / 256 = u / 16 / 16)
    by (rewrite N.Div0.div_div; reflexivity).
  assert (D3 : u / 4096 = u / 16 / 16 / 16)
    by (rewrite !N.Div0.div_div; reflexivity).
  assert (Hs : u / 16 / 16 / 16 < 16).
  { rewrite <- D3. apply N.Div0.div_lt_upper_bound. lia. }
  rewrite D2, D3. rewrite (N.mod_small (u / 16 / 16 / 16)) by exact Hs.
  lia.
Qed.

Lemma scanstring_u_escape (u : N) (X : pystr) :
  u < 65536 -> is_high_surrogate u = false ->
  scanstring (u_escape u ++ X) = push u (scanstring X).
Proof.
  intros Hu Hh. unfold u_escape. cbn [app scanstring].
  change (backslash =? dquote) with false.
  change (backslash =? backslash) with true.
  change (ch "u" =? letter_u) with true. cbv iota.
  rewrite (hex4_u_escape u Hu). cbv zeta. rewrite Hh. reflexivity.
Qed.

Lemma scanstring_surrogate_pair (hi lo : N) (X : pystr) :
  hi < 65536 -> lo < 65536 ->
  is_high_surrogate hi = true -> is_low_surrogate lo = true ->
  scanstring (u_escape hi ++ u_escape lo ++ X)
  = push (join_surrogates hi lo) (scanstring X).
Proof.
  intros Hhi Hlo Hh Hl. unfold u_escape. cbn [app scanstring].
  change (backslash =? dquote) with false.
  change (backslash =? backslash) with true.
  change (ch "u" =? letter_u) with true. cbv iota.
  rewrite (hex4_u_escape hi Hhi). cbv zeta. rewrite Hh. cbn [andb].
  rewrite (hex4_u_escape lo Hlo). rewrite Hl. reflexivity.
Qed.

Lemma scanstring_escape_scalar_char (c : N) (X : pystr) :
  scalar c -> scanstring (escape_char c ++ X) = push c (scanstring X).
Proof.
  intros [Hmax Hsur].
  destruct (N.lt_ge_cases c 128) as [Hlow|Hhigh];
    [apply scanstring_escape_char, Hlow|].
  unfold escape_char.
  repeat match goal with
         | |- context [c =? ?k] =>
           replace (c =? k) with false
             by (symmetry; apply N.eqb_neq; unfold dquote, backslash; lia)
         end.
  replace ((32 <=? c) && (c <=? 126)) with false
    by (symmetry; apply andb_false_iff; right; apply N.leb_gt; lia).
  destruct (c <? 65536) eqn:E.
  - apply N.ltb_lt in E. apply scanstring_u_escape; [exact E|].
    unfold is_high_surrogate. apply andb_false_iff.
    destruct (N.lt_ge_cases c 55296); [left; apply N.leb_gt; lia|].
    right. apply N.leb_gt. lia.
  - apply N.ltb_ge in E. cbv zeta. set (v := c - 65536).
    assert (Hv : v < 1048576) by (subst v; lia).
    assert (Hq : v / 1024 < 1024)
      by (apply N.Div0.div_lt_upper_bound; lia).
    assert (Hr : v mod 1024 < 1024) by (apply N.mod_lt; discriminate).
    rewrite (N.mod_small (v / 1024)) by exact Hq.
    assert (Hc : c = 65536 + v) by (subst v; lia).
    pose proof (N.div_mod v 1024 ltac:(discriminate)) as Ev.
    clearbody v.
    rewrite <- app_assoc, scanstring_surrogate_pair.
    + f_equal. unfold join_surrogates. lia_divmod.
    + lia_divmod.
    + lia_divmod.
    + unfold is_high_surrogate. apply andb_true_iff.
      split; apply N.leb_le; lia_divmod.
    + unfold is_low_surrogate. apply andb_true_iff.
      split; apply N.leb_le; lia_divmod.
Qed.

(** [json.dumps] of a string, read back: the string.  Every string of
    Unicode scalar values survives, escapes and surrogate pairs included. *)
Lemma scanstring_escape_scalar (t rest : pystr) :
  List.Forall scalar t ->
  scanstring (escape t ++ dquote :: rest) = Some (t, rest).
Proof.
  induction 1 as [|c t Hc Ht IH].
  - reflexivity.
  - unfold escape in *. cbn [List.map concat].
    rewrite <- app_assoc, scanstring_escape_scalar_char by exact Hc.
    rewrite IH. reflexivity.
Qed.

(** *** Integers *)

(** What may follow a number: the end of the text, or a character that
    continues neither its digits, a fraction nor an exponent. *)
Definition number_stops (rest : pystr) : bool :=
  match rest with
  | [] => true
  | c :: _ =>
    negb (is_digit c) && negb (c =? ch ".") && negb (c =? ch "e")
    && negb (c =? ch "E")
  end.

Definition digit_step (acc : Z) (c : N) : Z := (10 * acc + Z.of_N (c - 48))%Z.

Lemma digits_value_acc (d : Decimal.uint) (acc : positive) :
  fold_left digit_step (uint_chars d) (Zpos acc)
  = Zpos (Pos.of_uint_acc d acc).
Proof.
  revert acc. induction d; intros acc; cbn [uint_chars fold_left Pos.of_uint_acc];
    try reflexivity; rewrite <- IHd; f_equal; unfold digit_step; cbn; lia.
Qed.

Lemma digits_value_uint (d : Decimal.uint) :
  digits_value (uint_chars d) = Z.of_N (Pos.of_uint d).
Proof.
  unfold digits_value. change (fun acc c => (10 * acc + Z.of_N (c - 48))%Z)
    with digit_step.
  induction d; cbn [uint_chars fold_left Pos.of_uint]; try reflexivity;
    try exact IHd;
    match goal with
    | |- fold_left _ _ ?z = _ =>
      let z' := eval cbv in z in change z with z'
    end; rewrite digits_value_acc; reflexivity.
Qed.

Lemma digits_value_N_repr (n : N) : digits_value (N_repr n) = Z.of_N n.
Proof.
  unfold N_repr. rewrite digits_value_uint.
  change (Pos.of_uint (N.to_uint n)) with (N.of_uint (N.to_uint n)).
  rewrite DecimalN.Unsigned.of_to. reflexivity.
Qed.

(** A decimal numeral without leading zero. *)
Definition leading_nonzero (d : Decimal.uint) : Prop :=
  match d with
  | Decimal.Nil | Decimal.D0 _ => False
  | _ => True
  end.

Lemma nzhead_shape (d : Decimal.uint) :
  Decimal.nzhead d = Decimal.Nil \/ leading_nonzero (Decimal.nzhead d).
Proof. induction d; cbn; tauto. Qed.

Lemma to_uint_leading (p : positive) : leading_nonzero (Pos.to_uint p).
Proof.
  pose proof (DecimalPos.Unsigned.to_of (Pos.to_uint p)) as E.
  rewrite DecimalPos.Unsigned.of_to in E. cbn [N.to_uint] in E.
  pose proof (DecimalPos.Unsigned.to_uint_nonzero p) as Hz.
  rewrite E in Hz |- *. unfold Decimal.unorm in *.
  destruct (nzhead_shape (Pos.to_uint p)) as [H|H].
  - rewrite H in Hz. contradiction.
  - destruct (Decimal.nzhead (Pos.to_uint p)); cbn in H |- *; tauto.
Qed.

Lemma span_digits_uint (d : Decimal.uint) (rest : pystr) :
  number_stops rest = true ->
  span_digits (uint_chars d ++ rest) = (uint_chars d, rest).
Proof.
  intros Hr. induction d; cbn [uint_chars app span_digits];
    try (change (is_digit _) with true; cbv iota; rewrite IHd; reflexivity).
  destruct rest as [|c rest']; [reflexivity|]. cbn [span_digits].
  unfold number_stops in Hr.
  destruct (is_digit c); [discriminate Hr | reflexivity].
Qed.

Lemma scan_intpart_N_repr (n : N) (rest : pystr) :
  number_stops rest = true ->
  scan_intpart (N_repr n ++ rest) = Some (N_repr n, rest).
Proof.
  intros Hr. destruct n as [|p]; [reflexivity|].
  unfold N_repr. cbn [N.to_uint].
  pose proof (to_uint_leading p) as Hl.
  pose proof (span_digits_uint (Pos.to_uint p) rest Hr) as Hs.
  destruct (Pos.to_uint p); cbn in Hl; try contradiction;
    cbn [uint_chars app] in *; unfold scan_intpart;
    match goal with
    | |- context [?c =? 48] => change (c =? 48) with false
    end;
    match goal with
    | |- context [is_digit ?c] => change (is_digit c) with true
    end; cbv iota; rewrite Hs; reflexivity.
Qed.

Lemma scan_frac_stops (rest : pystr) :
  number_stops rest = true -> scan_frac rest = ([], rest).
Proof.
  destruct rest as [|c rest']; [reflexivity|]. unfold number_stops, scan_frac.
  intros Hr. destruct (c =? ch "."); [|reflexivity].
  rewrite andb_false_r in Hr. discriminate Hr.
Qed.

Lemma scan_exp_stops (rest : pystr) :
  number_stops rest = true -> scan_exp rest = ([], rest).
Proof.
  destruct rest as [|c rest']; [reflexivity|]. unfold number_stops, scan_exp.
  intros Hr. destruct (c =? ch "e"), (c =? ch "E"); cbn [orb];
    try reflexivity; rewrite ?andb_false_r in Hr; discriminate Hr.
Qed.

Lemma N_repr_head (n : N) :
  exists c tl, N_repr n = c :: tl /\ is_digit c = true.
Proof.
  destruct n as [|p]; [exists 48, []; split; reflexivity|].
  unfold N_repr. cbn [N.to_uint]. pose proof (to_uint_leading p) as Hl.
  destruct (Pos.to_uint p); cbn in Hl; try contradiction;
    cbn [uint_chars]; eexists _, _; split; reflexivity.
Qed.

Lemma scan_number_int (z : Z) (rest : pystr) :
  number_stops rest = true ->
  scan_number (int_repr z ++ rest) = Some (VInt z, rest).
Proof.
  intros Hr. unfold scan_number.
  assert (Hnat : forall n,
            match N_repr n ++ rest with
            | c :: s' => if c =? ch "-" then (true, s') else (false, N_repr n ++ rest)
            | [] => (false, N_repr n ++ rest)
            end = (false, N_repr n ++ rest)).
  { intros n. destruct (N_repr_head n) as (c & tl & E & Hc).
    rewrite E at 1. cbn [app].
    replace (c =? ch "-") with false; [reflexivity|].
    symmetry. unfold is_digit in Hc. apply andb_true_iff in Hc as [Hc _].
    apply N.leb_le in Hc. apply N.eqb_neq. cbn. lia. }
  destruct z as [|p|p]; cbn [int_repr Z.to_N].
  - rewrite Hnat, (scan_intpart_N_repr 0 rest Hr).
    rewrite (scan_frac_stops rest Hr), (scan_exp_stops rest Hr).
    reflexivity.
  - rewrite Hnat, (scan_intpart_N_repr (Npos p) rest Hr).
    rewrite (scan_frac_stops rest Hr), (scan_exp_stops rest Hr).
    rewrite digits_value_N_repr. reflexivity.
  - cbn [app]. change (ch "-" =? ch "-") with true. cbv iota.
    rewrite (scan_intpart_N_repr (Npos p) rest Hr).
    rewrite (scan_frac_stops rest Hr), (scan_exp_stops rest Hr).
    rewrite digits_value_N_repr. reflexivity.
Qed.

Lemma scan_once_atom (n : nat) (c : N) (s : pystr) :
  (c =? dquote) = false -> (c =? lbrace) = false -> (c =? lbracket) = false ->
  scan_once n (c :: s) = scan_atom (c :: s).
Proof. intros H1 H2 H3. destruct n; cbn [scan_once]; rewrite H1, H2, H3; reflexivity. Qed.

Lemma is_digit_cases (c : N) :
  is_digit c = true ->
  In c [48; 49; 50; 51; 52; 53; 54; 55; 56; 57].
Proof.
  unfold is_digit. intros H. apply andb_true_iff in H as [H1 H2].
  apply N.leb_le in H1, H2.
  assert (E : c = 48 \/ c = 49 \/ c = 50 \/ c = 51 \/ c = 52 \/ c = 53
              \/ c = 54 \/ c = 55 \/ c = 56 \/ c = 57) by lia.
  cbn [In]. intuition.
Qed.

Lemma first_some_singleton {A : Type} (x : option A) : first_some [x] = x.
Proof. destruct x; reflexivity. Qed.

Lemma scan_atom_number (s : pystr) :
  (exists c tl, s = c :: tl /\ is_digit c = true)
  \/ (exists c tl, s = ch "-" :: c :: tl /\ is_digit c = true) ->
  scan_atom s = match scan_number s with
                | Some (v, r) => Scanned v r
                | None => DecodeError
                end.
Proof.
  intros Hs. unfold scan_atom.
  rewrite <- (first_some_singleton (scan_number s)) at 2.
  destruct Hs as [(c & tl & -> & Hc)|(c & tl & -> & Hc)];
    apply is_digit_cases in Hc; cbn [In] in Hc;
    repeat (destruct Hc as [<-|Hc]; [reflexivity|]); contradiction.
Qed.

Lemma int_repr_shape (z : Z) (rest : pystr) :
  (exists c tl, int_repr z ++ rest = c :: tl /\ is_digit c = true)
  \/ (exists c tl, int_repr z ++ rest = ch "-" :: c :: tl /\ is_digit c = true).
Proof.
  destruct z as [|p|p]; cbn [int_repr Z.to_N].
  - left. destruct (N_repr_head 0) as (c & tl & E & Hc). rewrite E. cbn [app]. eauto.
  - left. destruct (N_repr_head (Npos p)) as (c & tl & E & Hc). rewrite E.
    cbn [app]. eauto.
  - right. destruct (N_repr_head (Npos p)) as (c & tl & E & Hc). rewrite E.
    cbn [app]. eauto.
Qed.

Lemma scan_once_int (n : nat) (z : Z) (rest : pystr) :
  number_stops rest = true ->
  scan_once n (int_repr z ++ rest) = Scanned (VInt z) rest.
Proof.
  intros Hr.
  assert (A : scan_atom (int_repr z ++ rest) = Scanned (VInt z) rest).
  { rewrite (scan_atom_number _ (int_repr_shape z rest)).
    rewrite (scan_number_int z rest Hr). reflexivity. }
  destruct (int_repr_shape z rest) as [(c & tl & E & Hc)|(c & tl & E & Hc)];
    rewrite E in *.
  - rewrite scan_once_atom; [exact A| | |];
      apply is_digit_cases in Hc; cbn [In] in Hc;
      repeat (destruct Hc as [<-|Hc]; [reflexivity|]); contradiction.
  - rewrite scan_once_atom; [exact A| | |]; reflexivity.
Qed.

(** *** Values *)

(** The values that are read back as they were written: no floats,
    strings and keys of Unicode scalar values, no key twice in a dict. *)
Inductive plain : value -> Prop :=
| plain_none : plain VNone
| plain_bool (b : bool) : plain (VBool b)
| plain_int (z : Z) : plain (VInt z)
| plain_str (s : pystr) : List.Forall scalar s -> plain (VStr s)
| plain_list (l : list value) : List.Forall plain l -> plain (VList l)
| plain_dict (d : list (pystr * value)) :
    List.Forall (fun kv => List.Forall scalar (fst kv) /\ plain (snd kv)) d ->
    List.NoDup (List.map fst d) ->
    plain (VDict d).

Lemma skip_ws_spaces (k : nat) (Y : pystr) :
  skip_ws (repeat 32 k ++ Y) = skip_ws Y.
Proof. induction k as [|k IH]; [reflexivity | exact IH]. Qed.

Lemma skip_ws_indent (lvl : nat) (Y : pystr) :
  skip_ws (newline_indent lvl ++ Y) = skip_ws Y.
Proof. unfold newline_indent. cbn [app skip_ws]. apply skip_ws_spaces. Qed.

Lemma skip_ws_head (c : N) (Y : pystr) :
  is_ws c = false -> skip_ws (c :: Y) = c :: Y.
Proof. intros Hc. cbn [skip_ws]. rewrite Hc. reflexivity. Qed.

Lemma scan_elements_eq (sv : pystr -> scan value) (m : nat)
      (acc : list value) (s : pystr) :
  scan_elements sv m acc s
  = match sv s with
    | Scanned v s1 =>
      match skip_ws s1 with
      | c :: s2 =>
        if c =? rbracket then Scanned (VList (acc ++ [v])) s2
        else if c =? comma then
          match m with
          | O => OutOfFuel
          | S m' => scan_elements sv m' (acc ++ [v]) (skip_ws s2)
          end
        else DecodeError
      | [] => DecodeError
      end
    | DecodeError => DecodeError
    | OutOfFuel => OutOfFuel
    end.
Proof. destruct m; reflexivity. Qed.

Lemma scan_members_eq (sv : pystr -> scan value) (m : nat)
      (acc : list (pystr * value)) (s : pystr) :
  scan_members sv m acc s
  = match s with
    | q :: s1 =>
      if q =? dquote then
        match scanstring s1 with
        | Some (k, s2) =>
          match skip_ws s2 with
          | c :: s3 =>
            if c =? colon then
              match sv (skip_ws s3) with
              | Scanned v s4 =>
                match skip_ws s4 with
                | d :: s5 =>
                  if d =? rbrace then Scanned (VDict (dict_set acc k v)) s5
                  else if d =? comma then
                    match m with
                    | O => OutOfFuel
                    | S m' => scan_members sv m' (dict_set acc k v) (skip_ws s5)
                    end
                  else DecodeError
                | [] => DecodeError
                end
              | DecodeError => DecodeError
              | OutOfFuel => OutOfFuel
              end
            else DecodeError
          | [] => DecodeError
          end
        | None => DecodeError
        end
      else DecodeError
    | [] => DecodeError
    end.
Proof. destruct m; reflexivity. Qed.

Lemma dict_set_new (d : list (pystr * value)) (k : pystr) (v : value) :
  ~ In k (List.map fst d) -> dict_set d k v = d ++ [(k, v)].
Proof.
  induction d as [|[k0 v0] d IH]; cbn [dict_set List.map fst In app];
    [reflexivity|].
  intros Hk. destruct (pystr_eqb k0 k) eqn:E.
  - apply pystr_eqb_eq in E. tauto.
  - rewrite IH by tauto. reflexivity.
Qed.

Section RoundTrip.
Context {F : FloatOps}.

(** The items of a list after the first, and of a dict, as [encode]
    writes them. *)
Fixpoint list_items (lvl : nat) (l : list value) : pystr :=
  match l with
  | [] => []
  | y :: l' =>
    str "," ++ newline_indent (S lvl) ++ encode (S lvl) y ++ list_items lvl l'
  end.

Definition member (lvl : nat) (k : pystr) (x : value) : pystr :=
  encode_basestring_ascii k ++ str ": " ++ encode (S lvl) x.

Fixpoint dict_items (lvl : nat) (l : list (pystr * value)) : pystr :=
  match l with
  | [] => []
  | (k, y) :: l' =>
    str "," ++ newline_indent (S lvl) ++ member lvl k y ++ dict_items lvl l'
  end.

Lemma encode_list (lvl : nat) (x : value) (xs : list value) :
  encode lvl (VList (x :: xs))
  = lbracket :: newline_indent (S lvl) ++ encode (S lvl) x
    ++ list_items lvl xs ++ newline_indent lvl ++ [rbracket].
Proof.
  cbn [encode]. change (str "[") with [lbracket]. cbn [app]. do 3 f_equal.
  f_equal. induction xs as [|y ys IH]; [reflexivity|].
  cbn [list_items]. rewrite <- IH. reflexivity.
Qed.

Lemma encode_dict (lvl : nat) (k : pystr) (x : value)
      (kxs : list (pystr * value)) :
  encode lvl (VDict ((k, x) :: kxs))
  = lbrace :: newline_indent (S lvl) ++ member lvl k x
    ++ dict_items lvl kxs ++ newline_indent lvl ++ [rbrace].
Proof.
  cbn [encode]. change (str "{") with [lbrace]. cbn [app]. unfold member.
  rewrite <- !app_assoc. do 5 f_equal. f_equal.
  induction kxs as [|[k' y] ys IH]; [reflexivity|].
  cbn [dict_items]. unfold member. rewrite <- IH, <- !app_assoc. reflexivity.
Qed.

End RoundTrip.

Section ReadBack.
Context {F : FloatOps}.

(** [v] is read back from what [encode] writes for it, at any nesting
    level, in front of any text a number may stop at, given a budget of
    at least the length of what was written. *)
Definition reads_back (v : value) : Prop :=
  forall lvl n rest,
    (length (encode lvl v) <= n)%nat ->
    number_stops rest = true ->
    scan_once n (encode lvl v ++ rest) = Scanned v rest.

Lemma encode_head (lvl : nat) (v : value) :
  plain v ->
  exists c tl, encode lvl v = c :: tl
               /\ is_ws c = false
               /\ (c =? rbracket) = false /\ (c =? rbrace) = false.
Proof.
  intros Hv. destruct Hv as [|b|z|s Hs|l Hl|d Hd Hn].
  - eexists _, _. repeat split; reflexivity.
  - destruct b; eexists _, _; repeat split; reflexivity.
  - cbn [encode].
    destruct (int_repr_shape z []) as [(c & tl & E & Hc)|(c & tl & E & Hc)];
      rewrite app_nil_r in E; rewrite E.
    + exists c, tl. apply is_digit_cases in Hc. cbn [In] in Hc.
      repeat (destruct Hc as [<-|Hc]; [repeat split; reflexivity|]).
      contradiction.
    + eexists _, _. repeat split; reflexivity.
  - eexists _, _. repeat split; reflexivity.
  - destruct l as [|x xs]; [eexists _, _; repeat split; reflexivity|].
    rewrite encode_list. eexists _, _. repeat split; reflexivity.
  - destruct d as [|[k x] kxs]; [eexists _, _; repeat split; reflexivity|].
    rewrite encode_dict. eexists _, _. repeat split; reflexivity.
Qed.

Lemma skip_ws_encode (lvl : nat) (v : value) (Y : pystr) :
  plain v -> skip_ws (encode lvl v ++ Y) = encode lvl v ++ Y.
Proof.
  intros Hv. destruct (encode_head lvl v Hv) as (c & tl & E & Hws & _).
  rewrite E. cbn [app]. apply skip_ws_head, Hws.
Qed.

Lemma list_items_length (lvl : nat) (xs : list value) :
  (length xs <= length (list_items lvl xs))%nat.
Proof.
  induction xs as [|y ys IH]; [reflexivity|]. cbn [list_items length].
  rewrite !length_app. change (length (str ",")) with 1%nat. lia.
Qed.

Lemma list_items_bound (lvl : nat) (xs : list value) :
  List.Forall (fun y => (length (encode (S lvl) y)
                         <= length (list_items lvl xs))%nat) xs.
Proof.
  induction xs as [|y ys IH]; constructor.
  - cbn [list_items]. rewrite !length_app. lia.
  - eapply List.Forall_impl; [|exact IH]. intros z Hz. cbv beta in Hz.
    cbn [list_items]. rewrite !length_app. lia.
Qed.

Lemma scan_elements_items (n' lvl : nat) (rest : pystr) :
  forall xs x acc m,
    reads_back x -> List.Forall reads_back xs ->
    plain x -> List.Forall plain xs ->
    (length (encode (S lvl) x) <= n')%nat ->
    List.Forall (fun y => (length (encode (S lvl) y) <= n')%nat) xs ->
    (length xs <= m)%nat ->
    scan_elements (scan_once n') m acc
      (encode (S lvl) x ++ list_items lvl xs
       ++ newline_indent lvl ++ rbracket :: rest)
    = Scanned (VList (acc ++ x :: xs)) rest.
Proof.
  induction xs as [|y ys IH]; intros x acc m Rx Rxs Px Pxs Lx Lxs Lm.
  - rewrite scan_elements_eq. cbn [list_items app].
    rewrite (Rx (S lvl) n' _ Lx) by reflexivity.
    rewrite skip_ws_indent, skip_ws_head by reflexivity.
    change (rbracket =? rbracket) with true. reflexivity.
  - rewrite scan_elements_eq. cbn [list_items]. rewrite <- !app_assoc.
    change (str "," ++ ?Z) with (comma :: Z).
    inversion Rxs as [|? ? Ry Rys]; subst.
    inversion Pxs as [|? ? Py Pys]; subst.
    inversion Lxs as [|? ? Ly Lys]; subst.
    rewrite (Rx (S lvl) n' _ Lx) by reflexivity.
    rewrite skip_ws_head by reflexivity.
    change (comma =? rbracket) with false.
    change (comma =? comma) with true. cbv iota.
    destruct m as [|m']; [cbn [length] in Lm; lia|].
    rewrite skip_ws_indent, (skip_ws_encode (S lvl) y _ Py).
    rewrite (IH y (acc ++ [x]) m' Ry Rys Py Pys Ly Lys)
      by (cbn [length] in Lm; lia).
    rewrite <- app_assoc. reflexivity.
Qed.

Lemma member_text (lvl : nat) (k : pystr) (x : value) (Y : pystr) :
  member lvl k x ++ Y
  = dquote :: escape k ++ dquote :: colon :: 32 :: encode (S lvl) x ++ Y.
Proof.
  unfold member, encode_basestring_ascii. cbn [app].
  rewrite <- !app_assoc. reflexivity.
Qed.

Lemma dict_items_length (lvl : nat) (kxs : list (pystr * value)) :
  (length kxs <= length (dict_items lvl kxs))%nat.
Proof.
  induction kxs as [|[k y] ys IH]; [reflexivity|]. cbn [dict_items length].
  rewrite !length_app. change (length (str ",")) with 1%nat. lia.
Qed.

Lemma member_bound (lvl : nat) (k : pystr) (x : value) :
  (length (encode (S lvl) x) <= length (member lvl k x))%nat.
Proof. unfold member. rewrite !length_app. lia. Qed.

Lemma dict_items_bound (lvl : nat) (kxs : list (pystr * value)) :
  List.Forall (fun kv => (length (encode (S lvl) (snd kv))
                          <= length (dict_items lvl kxs))%nat) kxs.
Proof.
  induction kxs as [|[k y] ys IH]; constructor.
  - cbn [dict_items snd]. pose proof (member_bound lvl k y).
    rewrite !length_app. lia.
  - eapply List.Forall_impl; [|exact IH]. intros z Hz. cbv beta in Hz.
    cbn [dict_items]. rewrite !length_app. lia.
Qed.

Lemma scan_members_items (n' lvl : nat) (rest : pystr) :
  forall kxs k x acc m,
    reads_back x -> List.Forall (fun kv => reads_back (snd kv)) kxs ->
    List.Forall scalar k /\ plain x ->
    List.Forall (fun kv => List.Forall scalar (fst kv) /\ plain (snd kv)) kxs ->
    (length (encode (S lvl) x) <= n')%nat ->
    List.Forall (fun kv => (length (encode (S lvl) (snd kv)) <= n')%nat) kxs ->
    List.NoDup (List.map fst acc ++ k :: List.map fst kxs) ->
    (length kxs <= m)%nat ->
    scan_members (scan_once n') m acc
      (member lvl k x ++ dict_items lvl kxs
       ++ newline_indent lvl ++ rbrace :: rest)
    = Scanned (VDict (acc ++ (k, x) :: kxs)) rest.
Proof.
  induction kxs as [|[k' y] ys IH];
    intros k x acc m Rx Rxs [Sk Px] Pxs Lx Lxs Hnd Lm.
  - rewrite scan_members_eq, member_text.
    change (dquote =? dquote) with true. cbv iota.
    rewrite (scanstring_escape_scalar k _ Sk).
    rewrite skip_ws_head by reflexivity.
    change (colon =? colon) with true. cbv iota.
    change (skip_ws (32 :: ?Z)) with (skip_ws Z).
    rewrite (skip_ws_encode (S lvl) x _ Px).
    cbn [dict_items app].
    rewrite (Rx (S lvl) n' _ Lx) by reflexivity.
    rewrite skip_ws_indent, skip_ws_head by reflexivity.
    change (rbrace =? rbrace) with true. cbv iota.
    rewrite dict_set_new; [reflexivity|].
    cbn [List.map] in Hnd. apply NoDup_remove_2 in Hnd.
    rewrite app_nil_r in Hnd. exact Hnd.
  - rewrite scan_members_eq, member_text.
    change (dquote =? dquote) with true. cbv iota.
    rewrite (scanstring_escape_scalar k _ Sk).
    rewrite skip_ws_head by reflexivity.
    change (colon =? colon) with true. cbv iota.
    change (skip_ws (32 :: ?Z)) with (skip_ws Z).
    rewrite (skip_ws_encode (S lvl) x _ Px).
    cbn [dict_items]. rewrite <- !app_assoc.
    change (str "," ++ ?Z) with (comma :: Z).
    inversion Rxs as [|? ? Ry Rys]; subst.
    inversion Pxs as [|? ? Py Pys]; subst.
    inversion Lxs as [|? ? Ly Lys]; subst.
    cbn [fst snd] in *.
    rewrite (Rx (S lvl) n' _ Lx) by reflexivity.
    rewrite skip_ws_head by reflexivity.
    change (comma =? rbrace) with false.
    change (comma =? comma) with true. cbv iota.
    destruct m as [|m']; [cbn [length] in Lm; lia|].
    rewrite skip_ws_indent.
    assert (Hk : ~ In k (List.map fst acc)).
    { apply NoDup_remove_2 in Hnd. intros Hin. apply Hnd.
      apply in_or_app. left. exact Hin. }
    rewrite (dict_set_new acc k x Hk).
    assert (Hws : forall Z, skip_ws (member lvl k' y ++ Z) = member lvl k' y ++ Z).
    { intros Z. rewrite member_text. apply skip_ws_head. reflexivity. }
    rewrite Hws.
    rewrite (IH k' y (acc ++ [(k, x)]) m' Ry Rys Py Pys Ly Lys).
    + rewrite <- app_assoc. reflexivity.
    + rewrite List.map_app. cbn [List.map fst]. rewrite <- app_assoc.
      exact Hnd.
    + cbn [length] in Lm. lia.
Qed.

Lemma plain_reads_back (v : value) : plain v -> reads_back v.
Proof.
  induction v as [| b | z | l | s | l IH | d IH] using value_induction;
    intros Pv lvl n rest Hn Hr.
  - destruct n; reflexivity.
  - destruct b, n; reflexivity.
  - apply scan_once_int, Hr.
  - inversion Pv.
  - inversion Pv as [| | |? Hs| |]; subst. cbn [encode].
    unfold encode_basestring_ascii. cbn [app]. rewrite <- app_assoc.
    cbn [app].
    assert (E : forall m X, scan_once m (dquote :: X)
                = match scanstring X with
                  | Some (t, r) => Scanned (VStr t) r
                  | None => DecodeError
                  end) by (intros [|m] X; reflexivity).
    rewrite E, (scanstring_escape_scalar s rest Hs). reflexivity.
  - inversion Pv as [| | | |? Pl|]; subst.
    destruct l as [|x xs]; [destruct n; reflexivity|].
    rewrite encode_list in *. cbn [length] in Hn.
    destruct n as [|n']; [lia|]. cbn [app scan_once].
    change (lbracket =? dquote) with false.
    change (lbracket =? lbrace) with false.
    change (lbracket =? lbracket) with true. cbv iota.
    rewrite <- !app_assoc. cbn [app].
    rewrite skip_ws_indent.
    inversion Pl as [|? ? Px Pxs]; subst.
    inversion IH as [|? ? IHx IHxs]; subst.
    rewrite (skip_ws_encode (S lvl) x _ Px).
    destruct (encode_head (S lvl) x Px) as (c & tl & E & _ & Hb & _).
    rewrite E at 1. cbn [app]. rewrite Hb.
    rewrite !length_app in Hn.
    pose proof (list_items_length lvl xs) as Hlen.
    pose proof (list_items_bound lvl xs) as Hbound.
    apply scan_elements_items.
    + apply IHx, Px.
    + clear - IHxs Pxs. induction IHxs as [|y ys Hy Hys IHys];
        constructor; inversion Pxs; subst; auto.
    + exact Px.
    + exact Pxs.
    + lia.
    + eapply List.Forall_impl; [|exact Hbound]. intros y Hy. cbv beta in Hy. lia.
    + rewrite !length_app. lia.
  - inversion Pv as [| | | | |? Pd Hnd]; subst.
    destruct d as [|[k x] kxs]; [destruct n; reflexivity|].
    rewrite encode_dict in *. cbn [length] in Hn.
    destruct n as [|n']; [lia|]. cbn [app scan_once].
    change (lbrace =? dquote) with false.
    change (lbrace =? lbrace) with true. cbv iota.
    rewrite <- !app_assoc. cbn [app].
    rewrite skip_ws_indent.
    inversion Pd as [|? ? [Sk Px] Pxs]; subst. cbn [fst snd] in *.
    inversion IH as [|? ? IHx IHxs]; subst. cbn [snd] in IHx.
    assert (Hws : forall Z, skip_ws (member lvl k x ++ Z) = member lvl k x ++ Z).
    { intros Z. rewrite member_text. apply skip_ws_head. reflexivity. }
    rewrite Hws. rewrite member_text at 1.
    change (dquote =? rbrace) with false. cbv iota.
    rewrite !length_app in Hn.
    pose proof (dict_items_length lvl kxs) as Hlen.
    pose proof (dict_items_bound lvl kxs) as Hbound.
    pose proof (member_bound lvl k x) as Hmem.
    apply scan_members_items.
    + apply IHx, Px.
    + clear - IHxs Pxs. induction IHxs as [|y ys Hy Hys IHys];
        constructor; inversion Pxs as [|? ? [? ?] ?]; subst; auto.
    + split; assumption.
    + exact Pxs.
    + lia.
    + eapply List.Forall_impl; [|exact Hbound]. intros y Hy. cbv beta in Hy. lia.
    + exact Hnd.
    + rewrite !length_app. lia.
Qed.

(** [json.loads(json.dumps(v, indent=2))] is [v], for every value without
    floats whose strings and keys hold Unicode scalar values and whose
    dicts hold no key twice; a line break after the text, as [print]
    adds, changes nothing. *)
Lemma loads_dumps (v : value) :
  plain v ->
  loads (dumps_indent2 v) = Scanned v []
  /\ loads (dumps_indent2 v ++ [10]) = Scanned v [].
Proof.
  intros Pv. unfold loads, loads_fuel, dumps_indent2. split.
  - rewrite <- (app_nil_r (encode 0 v)) at 2.
    rewrite (skip_ws_encode 0 v [] Pv).
    rewrite (plain_reads_back v Pv 0%nat _ []) by (reflexivity || lia).
    reflexivity.
  - rewrite (skip_ws_encode 0 v _ Pv).
    rewrite (plain_reads_back v Pv 0%nat _ [10])
      by (reflexivity || (rewrite length_app; lia)).
    reflexivity.
Qed.

(** X13.  [json.dumps] of a string and [json.loads] of the result give the
    string back, for every string of Unicode scalar values: control
    characters, quotes, non-ASCII characters and characters beyond the
    basic plane (written as surrogate pairs) included.  Surrogates are
    excluded for a reason: a high and a low surrogate in a row are
    written as one pair of escapes and read back as one character. *)
Theorem string_round_trip (s : pystr) :
  List.Forall scalar s ->
  loads (encode_basestring_ascii s) = Scanned (VStr s) []
  /\ ascii_only (encode_basestring_ascii s)
  /\ loads (encode_basestring_ascii [55357; 56832]) = Scanned (VStr [128512]) [].
Proof.
  intros Hs. split; [|split; [apply encode_basestring_ascii_ascii | reflexivity]].
  unfold loads, loads_fuel, encode_basestring_ascii.
  rewrite skip_ws_head by reflexivity.
  assert (E : forall m X, scan_once m (dquote :: X)
              = match scanstring X with
                | Some (t, r) => Scanned (VStr t) r
                | None => DecodeError
                end) by (intros [|m] X; reflexivity).
  rewrite E, (scanstring_escape_scalar s [] Hs). reflexivity.
Qed.

(** X14.  [json.loads(json.dumps(v, indent=2))] is [v] for every value
    without floats whose strings and keys are of Unicode scalar values,
    whose dicts hold no key twice and whose written form is within the
    limits of the interpreter (no integer of more than 4300 digits, at
    most 100 lists and dicts in all); the line break that [print] adds
    does not matter.  Hence two such values that are written alike are
    equal. *)
Theorem json_round_trip (v : value) :
  plain v ->
  within_limits (dumps_indent2 v) = true ->
  loads (dumps_indent2 v) = Scanned v []
  /\ loads (dumps_indent2 v ++ [10]) = Scanned v []
  /\ forall w, plain w -> dumps_indent2 w = dumps_indent2 v -> w = v.
Proof.
  intros Pv _. destruct (loads_dumps v Pv) as [Hv Hv'].
  split; [exact Hv|]. split; [exact Hv'|].
  intros w Pw E. destruct (loads_dumps w Pw) as [Hw _].
  rewrite E, Hv in Hw. injection Hw as <-. reflexivity.
Qed.

End ReadBack.

Lemma string_round_trip_witness :
  loads (encode_basestring_ascii [34; 92; 10; 233; 8364; 128512; 65])
  = Scanned (VStr [34; 92; 10; 233; 8364; 128512; 65]) [].
Proof.
  apply (string_round_trip [34; 92; 10; 233; 8364; 128512; 65]).
  repeat constructor; unfold scalar; lia.
Defined.

(** A nested value with every kind of plain entry. *)
Definition sample_value : value :=
  VDict [(str "user", VStr (str "Alice"));
         (str "tags", VList [VStr [233; 128512]; VInt (-42); VNone;
                             VList []; VDict []]);
         (str "on", VBool true);
         (str "nested", VDict [(str "n", VInt 0)])].

Lemma json_round_trip_witness :
  loads (dumps_indent2 (F := literal_floats) sample_value)
  = Scanned sample_value [].
Proof.
  apply (json_round_trip (F := literal_floats) sample_value);
    [|reflexivity].
  unfold sample_value.
  repeat first
    [ apply plain_dict | apply plain_list | apply plain_str
    | apply plain_int | apply plain_bool | apply plain_none
    | apply List.Forall_nil | apply List.Forall_cons | split
    | apply List.NoDup_nil
    | (apply List.NoDup_cons; [cbn; intuition discriminate|])
    | (unfold scalar; cbn; lia) ].
Defined.

End JsonMore.

(** ** [generate_content.py]: errors and edge cases *)

Module GenerateContentMore.
Import Py Json JsonFacts JsonMore GenerateContent GenerateContentFacts.

Section More.
Context {F : FloatOps}.

(** X1.  With [DIVE_GLOBALS] absent, or holding a string within the limits
    of the interpreter (no run of more than 4300 digits, at most 100
    opening brackets), the script fails exactly when the string is not
    empty and not one JSON text.  It then ends with [JSONDecodeError],
    status 1 and nothing on standard output; in every other case the
    status is 0. *)
Theorem fails_iff_malformed (p : process) :
  (forall s, getenv p DIVE_GLOBALS = Some s -> within_limits s = true) ->
  (exit_code (run p) = 1%Z
   <-> exists c s, getenv p DIVE_GLOBALS = Some (c :: s)
                   /\ loads (c :: s) = DecodeError)
  /\ (exit_code (run p) = 1%Z ->
      stdout (run p) = [] /\ main p = Raise JSONDecodeError)
  /\ (exit_code (run p) = 0%Z \/ exit_code (run p) = 1%Z).
Proof.
  intros _.
  assert (Cases :
    (exists g, read_globals p = Ok g)
    \/ (read_globals p = Raise JSONDecodeError
        /\ exists c s, getenv p DIVE_GLOBALS = Some (c :: s)
                       /\ loads (c :: s) = DecodeError)).
  { unfold read_globals.
    destruct (getenv p DIVE_GLOBALS) as [[|c s]|] eqn:E; cbn; eauto.
    unfold json_loads. pose proof (loads_total (c :: s)) as Hf.
    destruct (loads (c :: s)) as [v r| |] eqn:El; [eauto | | contradiction].
    right. split; [reflexivity|]. eauto. }
  destruct Cases as [[g G]|[G (c & s & E & El)]].
  - destruct (run_of_globals p g G) as [R _]. rewrite R. cbn [exit_code stdout].
    split; [|split; [discriminate | left; reflexivity]].
    split; [discriminate|]. intros (c & s & E & El). exfalso.
    unfold read_globals in G. rewrite E in G. cbn in G. unfold json_loads in G.
    rewrite El in G. discriminate G.
  - assert (M : main p = Raise JSONDecodeError)
      by (unfold main, content_block; rewrite G; reflexivity).
    unfold run. rewrite M. cbn [exit_code stdout].
    split; [split; [eauto | reflexivity]|].
    split; [intros _; split; reflexivity | right; reflexivity].
Qed.

(** X2.  An empty [DIVE_GLOBALS] is taken like an absent one.  A blank one,
    of spaces, tabs and line breaks only, makes the script fail with
    [JSONDecodeError]. *)
Theorem empty_and_blank_globals (p : process) (s : pystr) :
  getenv p DIVE_GLOBALS = Some s ->
  List.Forall (fun c => is_ws c = true) s ->
  (s = [] ->
   main p = Ok (print (dumps_indent2 (VDict (text_block (generated_at (clock p)))))))
  /\ (s <> [] -> main p = Raise JSONDecodeError /\ exit_code (run p) = 1%Z).
Proof.
  intros E Hs. split.
  - intros ->.
    assert (G : read_globals p = Ok (VDict []))
      by (unfold read_globals; rewrite E; reflexivity).
    unfold main. rewrite (content_block_eq p _ G).
    unfold text_for. cbn [truthy]. rewrite app_nil_r. reflexivity.
  - intros Hne. destruct s as [|c s]; [contradiction|].
    assert (G : read_globals p = Raise JSONDecodeError).
    { rewrite (read_globals_set p c s E). unfold json_loads.
      rewrite (loads_blank _ Hs). reflexivity. }
    assert (M : main p = Raise JSONDecodeError)
      by (unfold main, content_block; rewrite G; reflexivity).
    split; [exact M|]. unfold run. rewrite M. reflexivity.
Qed.

Lemma section_marker_absent (now : datetime) :
  contains (str "Workflow globals: ") (generated_at now) = false.
Proof.
  destruct (contains _ _) eqn:E; [|reflexivity]. exfalso.
  apply (contains_head 87) in E. unfold generated_at in E.
  apply in_app_or in E as [E|E].
  - cbn in E. repeat (destruct E as [E|E]; [discriminate E|]). exact E.
  - apply in_app_or in E as [E|E].
    + pose proof (isoformat_stamp now) as Hs.
      rewrite List.Forall_forall in Hs. specialize (Hs _ E).
      unfold stamp_char, ch in Hs. cbn in Hs.
      destruct Hs as [H|[H|[H|[H|H]]]]; (lia || discriminate H).
    + cbn in E. repeat (destruct E as [E|E]; [discriminate E|]). exact E.
Qed.

(** X3.  Whatever JSON value a [DIVE_GLOBALS] within the limits of the
    interpreter (no run of more than 4300 digits, at most 100 opening
    brackets) decodes to, an object or not, the text of the block read
    back is the time stamp line, followed by the globals section exactly
    when the value is true in Python's sense: [0], [null], [false], the
    empty string, list and object add nothing, every other value is
    written after [Workflow globals: ]. *)
Theorem section_iff_truthy (p : process) (c : N) (s : pystr) (g : value) :
  getenv p DIVE_GLOBALS = Some (c :: s) ->
  within_limits (c :: s) = true ->
  loads (c :: s) = Scanned g [] ->
  block_text (run p)
  = Some (generated_at (clock p)
          ++ (if truthy g
              then [10] ++ str "Workflow globals: " ++ dumps_indent2 g
              else []))
  /\ forall t, block_text (run p) = Some t ->
               contains (str "Workflow globals: ") t = truthy g.
Proof.
  intros E _ El.
  assert (G : read_globals p = Ok g).
  { rewrite (read_globals_set p c s E). unfold json_loads. rewrite El.
    reflexivity. }
  destruct (run_of_globals p g G) as [_ T]. unfold text_for, globals_section in T.
  split; [exact T|]. intros t Et.
  assert (Ht : generated_at (clock p)
               ++ (if truthy g
                   then [10] ++ str "Workflow globals: " ++ dumps_indent2 g
                   else []) = t) by congruence.
  rewrite <- Ht. clear Ht Et T. destruct (truthy g).
  - replace (generated_at (clock p) ++ [10] ++ str "Workflow globals: "
             ++ dumps_indent2 g)
      with ((generated_at (clock p) ++ [10]) ++ str "Workflow globals: "
            ++ dumps_indent2 g)
      by (rewrite <- app_assoc; reflexivity).
    apply contains_app.
  - rewrite app_nil_r. apply section_marker_absent.
Qed.

(** X4.  What the script writes is ASCII only, whatever the globals hold, and
    ends with a line break. *)
Theorem stdout_ascii (p : process) :
  ascii_only (stdout (run p))
  /\ forall out, main p = Ok out -> exists body, out = body ++ [10].
Proof.
  split.
  - unfold run. destruct (main p) as [out|e] eqn:M; cbn [stdout]; [|constructor].
    apply main_inv in M as (g & _ & ->). unfold print.
    apply ascii_only_app; [apply encode_ascii | apply ascii_only_check; reflexivity].
  - intros out M. apply main_inv in M as (g & _ & ->). unfold print. eauto.
Qed.

(** X5.  [d[k] += suffix] (line 20) on any dict: when [d[k]] is a string, the
    dict keeps its keys and their order, [d[k]] becomes the old string
    followed by the suffix and every other entry is as before; when [k] is
    missing the statement raises [KeyError]. *)
Theorem iadd_str_updates (d : list (pystr * value)) (k suffix : pystr) :
  (forall s, dict_get d k = Some (VStr s) ->
     exists d', iadd_str d k suffix = Ok d'
                /\ dict_get d' k = Some (VStr (s ++ suffix))
                /\ List.map fst d' = List.map fst d
                /\ forall k', k' <> k -> dict_get d' k' = dict_get d k')
  /\ (dict_get d k = None -> iadd_str d k suffix = Raise KeyError).
Proof.
  split.
  - intros s E. unfold iadd_str. rewrite E. eexists. split; [reflexivity|].
    split; [apply dict_get_set_same|].
    split; [apply dict_set_keys_present; congruence|].
    intros k' Hk'. apply dict_get_set_other, Hk'.
  - intros E. unfold iadd_str. rewrite E. reflexivity.
Qed.

(** X6.  What the script writes after [Workflow globals: ] decodes to the
    value [DIVE_GLOBALS] decoded to: a parent that passes plain true
    globals, in a text within the limits of the interpreter (no run of
    more than 4300 digits, at most 100 opening brackets), can read them
    back from the text of the block. *)
Theorem globals_read_back (p : process) (c : N) (s : pystr) (g : value) :
  getenv p DIVE_GLOBALS = Some (c :: s) ->
  within_limits (c :: s) = true ->
  loads (c :: s) = Scanned g [] ->
  plain g -> truthy g = true ->
  exists written,
    block_text (run p)
    = Some (generated_at (clock p) ++ [10] ++ str "Workflow globals: "
            ++ written)
    /\ loads written = Scanned g [].
Proof.
  intros E _ El Pg Tg. exists (dumps_indent2 g). split.
  - assert (G : read_globals p = Ok g).
    { rewrite (read_globals_set p c s E). unfold json_loads. rewrite El.
      reflexivity. }
    destruct (run_of_globals p g G) as [_ T].
    unfold text_for, globals_section in T. rewrite Tg in T. exact T.
  - apply (loads_dumps g Pg).
Qed.

End More.

Lemma fails_iff_malformed_witness :
  exit_code (run (F := literal_floats) (process_with (str "{user: Alice}"))) = 1%Z
  /\ stdout (run (F := literal_floats) (process_with (str "{user: Alice}"))) = [].
Proof.
  assert (E : exit_code (run (F := literal_floats)
                           (process_with (str "{user: Alice}"))) = 1%Z)
    by reflexivity.
  split; [exact E|].
  apply (fails_iff_malformed (F := literal_floats)
           (process_with (str "{user: Alice}"))); [|exact E].
  intros s Es. injection Es as <-. reflexivity.
Defined.

Lemma empty_and_blank_globals_witness :
  main (F := literal_floats) (process_with (str "  "))
  = Raise JSONDecodeError.
Proof.
  eapply (empty_and_blank_globals (F := literal_floats)
            (process_with (str "  ")) (str "  ")).
  - reflexivity.
  - repeat constructor.
  - discriminate.
Defined.

Lemma section_iff_truthy_witness :
  block_text (run (F := literal_floats) (process_with (str "5")))
  = Some (generated_at noon ++ [10] ++ str "Workflow globals: " ++ str "5")
  /\ block_text (run (F := literal_floats) (process_with (str "0")))
     = Some (generated_at noon ++ []).
Proof.
  split.
  - apply (section_iff_truthy (F := literal_floats) (process_with (str "5"))
             53 [] (VInt 5)); reflexivity.
  - apply (section_iff_truthy (F := literal_floats) (process_with (str "0"))
             48 [] (VInt 0)); reflexivity.
Defined.

Lemma iadd_str_updates_witness :
  exists d', iadd_str (text_block (str "a")) (str "text") (str "b") = Ok d'
             /\ dict_get d' (str "text") = Some (VStr (str "a" ++ str "b"))
             /\ List.map fst d' = [str "type"; str "text"].
Proof.
  destruct (iadd_str_updates (text_block (str "a")) (str "text") (str "b"))
    as [Hset _].
  destruct (Hset (str "a") eq_refl) as (d' & Hd & Hg & Hk & _).
  exists d'. split; [exact Hd|]. split; [exact Hg | exact Hk].
Defined.

Lemma globals_read_back_witness :
  exists written,
    block_text (run (F := literal_floats) (process_with alice_compact))
    = Some (generated_at noon ++ [10] ++ str "Workflow globals: " ++ written)
    /\ loads written = Scanned alice [].
Proof.
  apply (globals_read_back (F := literal_floats) (process_with alice_compact)
           123 (List.tl alice_compact) alice); try reflexivity.
  apply plain_dict.
  - repeat constructor; unfold scalar; cbn; lia.
  - repeat constructor. cbn. tauto.
Defined.

End GenerateContentMore.

(** ** [generate_content.py]: the time stamp *)

Module StampWidth.
Import Py Json JsonFacts JsonMore GenerateContent GenerateContentFacts.

(** *** The width of the time stamp *)

Lemma of_uint_acc_lower (d : Decimal.uint) (acc : positive) :
  (Zpos acc * 10 ^ Z.of_nat (length (uint_chars d))
   <= Zpos (Pos.of_uint_acc d acc))%Z.
Proof.
  revert acc. induction d; intros acc;
    cbn [uint_chars length Pos.of_uint_acc];
    [rewrite Z.pow_0_r; lia | ..];
    (etransitivity; [|apply IHd]);
    rewrite Nat2Z.inj_succ, Z.pow_succ_r by lia;
    (apply Z.le_trans
       with (m := (Zpos (10 * acc) * 10 ^ Z.of_nat (length (uint_chars d)))%Z);
     [lia | apply Z.mul_le_mono_nonneg_r; [apply Z.pow_nonneg; lia | lia]]).
Qed.

Lemma leading_lower (d : Decimal.uint) :
  leading_nonzero d ->
  (10 ^ (Z.of_nat (length (uint_chars d)) - 1) <= Z.of_N (Pos.of_uint d))%Z.
Proof.
  destruct d; cbn [leading_nonzero]; try contradiction; intros _;
    cbn [uint_chars length Pos.of_uint];
    rewrite Nat2Z.inj_succ;
    replace (Z.succ (Z.of_nat (length (uint_chars d))) - 1)%Z
      with (Z.of_nat (length (uint_chars d))) by lia;
    (etransitivity; [|apply of_uint_acc_lower]);
    assert (0 <= 10 ^ Z.of_nat (length (uint_chars d)))%Z
      by (apply Z.pow_nonneg; lia); lia.
Qed.

Lemma N_repr_width (k : nat) (n : N) :
  (1 <= k)%nat -> (Z.of_N n < 10 ^ Z.of_nat k)%Z ->
  (length (N_repr n) <= k)%nat.
Proof.
  intros Hk Hn. destruct n as [|p]; [cbn; lia|].
  unfold N_repr. cbn [N.to_uint].
  pose proof (leading_lower (Pos.to_uint p) (to_uint_leading p)) as Hl.
  rewrite DecimalPos.Unsigned.of_to in Hl.
  destruct (Nat.le_gt_cases (length (uint_chars (Pos.to_uint p))) k) as [H|H];
    [exact H|]. exfalso.
  assert (10 ^ Z.of_nat k
          <= 10 ^ (Z.of_nat (length (uint_chars (Pos.to_uint p))) - 1))%Z
    by (apply Z.pow_le_mono_r; lia).
  lia.
Qed.

Lemma zero_pad_width (k : nat) (n : N) :
  (1 <= k)%nat -> (Z.of_N n < 10 ^ Z.of_nat k)%Z ->
  length (zero_pad k n) = k.
Proof.
  intros Hk Hn. unfold zero_pad. pose proof (N_repr_width k n Hk Hn).
  rewrite length_app, repeat_length. lia.
Qed.

(** The fields of a date and time, as [datetime] keeps them. *)
Definition in_range (d : datetime) : Prop :=
  1 <= year d <= 9999 /\ 1 <= month d <= 12 /\ 1 <= day d <= 31
  /\ hour d <= 23 /\ minute d <= 59 /\ second d <= 59
  /\ microsecond d <= 999999.

(** X7.  The time stamp has a fixed width, 19 characters or 26 with the
    microseconds, with the separators in their places; the first line of
    the text is 58 or 65 characters long accordingly. *)
Theorem stamp_width (d : datetime) :
  in_range d ->
  length (isoformat d) = (if microsecond d =? 0 then 19%nat else 26%nat)
  /\ isoformat d !! 4%nat = Some (ch "-")
  /\ isoformat d !! 7%nat = Some (ch "-")
  /\ isoformat d !! 10%nat = Some (ch "T")
  /\ isoformat d !! 13%nat = Some (ch ":")
  /\ isoformat d !! 16%nat = Some (ch ":")
  /\ length (generated_at d) = (if microsecond d =? 0 then 58%nat else 65%nat).
Proof.
  intros (Hy & Hmo & Hd & Hh & Hmi & Hs & Hus).
  assert (Wy : length (zero_pad 4 (year d)) = 4%nat)
    by (apply zero_pad_width; [lia | cbn; lia]).
  assert (Wmo : length (zero_pad 2 (month d)) = 2%nat)
    by (apply zero_pad_width; [lia | cbn; lia]).
  assert (Wd : length (zero_pad 2 (day d)) = 2%nat)
    by (apply zero_pad_width; [lia | cbn; lia]).
  assert (Wh : length (zero_pad 2 (hour d)) = 2%nat)
    by (apply zero_pad_width; [lia | cbn; lia]).
  assert (Wmi : length (zero_pad 2 (minute d)) = 2%nat)
    by (apply zero_pad_width; [lia | cbn; lia]).
  assert (Ws : length (zero_pad 2 (second d)) = 2%nat)
    by (apply zero_pad_width; [lia | cbn; lia]).
  assert (Wus : length (zero_pad 6 (microsecond d)) = 6%nat)
    by (apply zero_pad_width; [lia | cbn; lia]).
  assert (L : length (isoformat d)
              = (if microsecond d =? 0 then 19%nat else 26%nat)).
  { unfold isoformat. rewrite !length_app, Wy, Wmo, Wd, Wh, Wmi, Ws.
    destruct (microsecond d =? 0); [reflexivity|].
    rewrite length_app, Wus. reflexivity. }
  assert (At : forall (a b : pystr) (c : N) (i : nat),
            length a = i -> (a ++ c :: b) !! i = Some c).
  { intros a b c i <-. rewrite lookup_app_r by lia.
    rewrite Nat.sub_diag. reflexivity. }
  split; [exact L|].
  assert (G : length (generated_at d)
              = (if microsecond d =? 0 then 58%nat else 65%nat)).
  { unfold generated_at. rewrite !length_app, L.
    destruct (microsecond d =? 0); reflexivity. }
  unfold isoformat.
  split; [apply At, Wy|].
  split.
  { rewrite (app_assoc (zero_pad 4 _)), (app_assoc (_ ++ _)).
    apply At. rewrite !length_app, Wy, Wmo. reflexivity. }
  split.
  { rewrite (app_assoc (zero_pad 4 _)), (app_assoc (_ ++ _)),
      (app_assoc (_ ++ _)), (app_assoc (_ ++ _)).
    apply At. rewrite !length_app, Wy, Wmo, Wd. reflexivity. }
  split.
  { rewrite (app_assoc (zero_pad 4 _)), (app_assoc (_ ++ _)),
      (app_assoc (_ ++ _)), (app_assoc (_ ++ _)), (app_assoc (_ ++ _)),
      (app_assoc (_ ++ _)).
    apply At. rewrite !length_app, Wy, Wmo, Wd, Wh. reflexivity. }
  split.
  { rewrite (app_assoc (zero_pad 4 _)), (app_assoc (_ ++ _)),
      (app_assoc (_ ++ _)), (app_assoc (_ ++ _)), (app_assoc (_ ++ _)),
      (app_assoc (_ ++ _)), (app_assoc (_ ++ _)), (app_assoc (_ ++ _)).
    apply At. rewrite !length_app, Wy, Wmo, Wd, Wh, Wmi. reflexivity. }
  exact G.
Qed.

Lemma stamp_width_witness :
  in_range noon /\ length (isoformat noon) = 26%nat.
Proof.
  assert (R : in_range noon) by (unfold in_range, noon; cbn; lia).
  split; [exact R|]. apply (stamp_width noon R).
Defined.

End StampWidth.

(** ** [openai_example.py]: the course of a run *)

Module OpenaiExampleMore.
Import Py OpenaiExample OpenaiExampleFacts.

(** What the script prints after its second request. *)
Definition last_line (answer : result completion) : list (pystr * printed) :=
  match answer with
  | Ok c2 => match choices c2 with
             | final :: _ => [(str "completion:", PChoice final)]
             | [] => []
             end
  | Raise _ => []
  end.

(** The first choice of an answer: all the script reads of it. *)
Definition first_choice (answer : result completion) : result (option choice) :=
  match answer with
  | Ok c => Ok (head (choices c))
  | Raise e => Raise e
  end.

Lemma run_tool_call_output (model : api) (c : completion)
      (m : chat_message) (tc : tool_call) (rest : list tool_call) :
  model 0%nat first_request = Ok c ->
  first_tool_call c = Some (m, tc, rest) ->
  output (snd (run model))
  = [(str "message:", PMessage m);
     (str "tool_calls:", PToolCalls (tool_calls m))]
    ++ last_line (model 1%nat (second_request m tc)).
Proof.
  intros E T. unfold run, script, bind, get_messages, create.
  cbn -[str tools initial_messages].
  fold first_request. rewrite E. unfold first_tool_call in T.
  destruct (choices c) as [|ch chs]; [discriminate|].
  cbn -[str tools initial_messages].
  destruct (tool_calls (message ch)) as [[|tc' rest']|] eqn:Et; try discriminate.
  injection T as <- <- <-. cbn -[str tools initial_messages].
  fold (log_after (message ch) tc'). fold (second_request (message ch) tc').
  rewrite Et.
  destruct (model 1%nat (second_request (message ch) tc')) as [c2|e];
    cbn [last_line]; [|reflexivity].
  destruct (choices c2); reflexivity.
Qed.

(** X8.  The script ends without an exception exactly when the first answer
    holds a tool call in its first choice and the second answer holds at
    least one choice. *)
Theorem ends_normally_iff (model : api) :
  fst (run model) = Ok tt
  <-> exists c m tc rest c2 final finals,
        model 0%nat first_request = Ok c
        /\ first_tool_call c = Some (m, tc, rest)
        /\ model 1%nat (second_request m tc) = Ok c2
        /\ choices c2 = final :: finals.
Proof.
  split.
  - intros R. destruct (model 0%nat first_request) as [c|e] eqn:E.
    + destruct (first_tool_call c) as [[[m tc] rest]|] eqn:T.
      * destruct (run_tool_call model c m tc rest E T) as (_ & _ & Hr).
        rewrite Hr in R.
        destruct (model 1%nat (second_request m tc)) as [c2|e2] eqn:E2;
          [|discriminate].
        destruct (choices c2) as [|final finals] eqn:Ec2; [discriminate|].
        exists c, m, tc, rest, c2, final, finals. repeat split; assumption.
      * rewrite (run_no_tool_call model c E T) in R. discriminate R.
    + rewrite (run_client_error model e E) in R. discriminate R.
  - intros (c & m & tc & rest & c2 & final & finals & E & T & E2 & Ec2).
    destruct (run_tool_call model c m tc rest E T) as (_ & _ & Hr).
    rewrite Hr, E2, Ec2. reflexivity.
Qed.

(** X9.  The script prints nothing when it stops before the log is extended.
    Otherwise it prints, in this order, [message:] with the assistant
    message it appends, [tool_calls:] with all the tool calls of that
    message and, when the second answer holds a choice, [completion:]
    with the first choice of that answer. *)
Theorem printed_lines (model : api) :
  (messages (snd (run model)) = initial_messages
   /\ output (snd (run model)) = [])
  \/ exists m tc,
       messages (snd (run model)) = initial_messages ++ [Obj m; tool_message tc]
       /\ output (snd (run model))
          = [(str "message:", PMessage m);
             (str "tool_calls:", PToolCalls (tool_calls m))]
            ++ last_line (model 1%nat (second_request m tc)).
Proof.
  destruct (model 0%nat first_request) as [c|e] eqn:E.
  - destruct (first_tool_call c) as [[[m tc] rest]|] eqn:T.
    + right. exists m, tc.
      destruct (run_tool_call model c m tc rest E T) as (Hm & _ & _).
      rewrite Hm, log_after_entries.
      split; [reflexivity | apply (run_tool_call_output model c m tc rest E T)].
    + left. rewrite (run_no_tool_call model c E T). split; reflexivity.
  - left. rewrite (run_client_error model e E). split; reflexivity.
Qed.

(** X10.  An exception of the client ends the script with that exception.
    Raised by the first request, it leaves the log as it was; raised by
    the second request, it leaves the log with the assistant message and
    the tool result, both requests sent and two lines printed. *)
Theorem client_errors_propagate (model : api) (e : exn) :
  (model 0%nat first_request = Raise e ->
   run model = (Raise e, stopped_early))
  /\ (forall c m tc rest,
        model 0%nat first_request = Ok c ->
        first_tool_call c = Some (m, tc, rest) ->
        model 1%nat (second_request m tc) = Raise e ->
        run model
        = (Raise e,
           {| messages := initial_messages ++ [Obj m; tool_message tc];
              sent := [first_request; second_request m tc];
              output := [(str "message:", PMessage m);
                         (str "tool_calls:", PToolCalls (tool_calls m))] |})).
Proof.
  split; [apply run_client_error|].
  intros c m tc rest E T E2.
  destruct (run_tool_call model c m tc rest E T) as (Hm & Hs & Hr).
  pose proof (run_tool_call_output model c m tc rest E T) as Ho.
  rewrite E2 in Hr, Ho. cbn [last_line] in Ho. rewrite app_nil_r in Ho.
  rewrite log_after_entries in Hm.
  destruct (run model) as [r [ms sn out]]. cbn [fst snd messages sent output] in *.
  subst. reflexivity.
Qed.

(** X11.  The script reads the first choice of each answer and nothing else of
    it: two models whose answers agree on their first choices (and on the
    exceptions) give the same run. *)
Theorem only_first_choices_matter (model model' : api) :
  (forall n r, first_choice (model n r) = first_choice (model' n r)) ->
  run model = run model'.
Proof.
  intros Hsame.
  assert (Hstate : forall m : api,
            run m = (fst (run m),
                     {| messages := messages (snd (run m));
                        sent := sent (snd (run m));
                        output := output (snd (run m)) |})).
  { intros m. destruct (run m) as [r [ms sn out]]. reflexivity. }
  pose proof (Hsame 0%nat first_request) as H0.
  destruct (model 0%nat first_request) as [c|e] eqn:E;
    destruct (model' 0%nat first_request) as [c'|e'] eqn:E';
    cbn [first_choice] in H0; try discriminate.
  - injection H0 as H0.
    assert (T : first_tool_call c = first_tool_call c').
    { unfold first_tool_call. destruct (choices c), (choices c');
        cbn [head] in H0; try discriminate; [reflexivity|].
      injection H0 as <-. reflexivity. }
    destruct (first_tool_call c) as [[[m tc] rest]|] eqn:Tc.
    + symmetry in T.
      destruct (run_tool_call model c m tc rest E Tc) as (Hm & Hs & Hr).
      destruct (run_tool_call model' c' m tc rest E' T) as (Hm' & Hs' & Hr').
      pose proof (run_tool_call_output model c m tc rest E Tc) as Ho.
      pose proof (run_tool_call_output model' c' m tc rest E' T) as Ho'.
      pose proof (Hsame 1%nat (second_request m tc)) as H1.
      rewrite (Hstate model), (Hstate model').
      rewrite Hm, Hm', Hs, Hs', Hr, Hr', Ho, Ho'.
      destruct (model 1%nat (second_request m tc)) as [c2|e2];
        destruct (model' 1%nat (second_request m tc)) as [c2'|e2'];
        cbn [first_choice] in H1; try discriminate.
      * injection H1 as H1. cbn [last_line].
        destruct (choices c2), (choices c2'); cbn [head] in H1;
          try discriminate; [reflexivity|].
        injection H1 as <-. reflexivity.
      * injection H1 as <-. reflexivity.
    + symmetry in T.
      rewrite (run_no_tool_call model c E Tc),
              (run_no_tool_call model' c' E' T).
      destruct (choices c), (choices c'); cbn [head] in H0;
        try discriminate; [reflexivity|].
      injection H0 as <-. reflexivity.
  - injection H0 as <-.
    rewrite (run_client_error model e E), (run_client_error model' e E').
    reflexivity.
Qed.

(** X12.  Every request names the model [gpt-4o] and opens with the user's
    question, and the result appended for a tool call is the fixed text
    [9,033 feet], whatever function and arguments the call names. *)
Theorem fixed_model_and_result (model : api) :
  (forall r, In r (sent (snd (run model))) ->
             req_model r = str "gpt-4o"
             /\ head (req_messages r) = head initial_messages)
  /\ (forall d, In (Dict d) (messages (snd (run model))) ->
                is_tool_entry (Dict d) = true ->
                dict_get d (str "content") = Some (VStr (str "9,033 feet"))).
Proof.
  destruct (run_kinds model) as [[e R]|(c & m & tc & rest & E & T & Hm & Hs)].
  - rewrite R. cbn [snd sent messages stopped_early]. split.
    + intros r [<-|[]]. split; reflexivity.
    + intros d [Hd|[]] Ht. injection Hd as <-. discriminate Ht.
  - rewrite Hs, Hm, log_after_entries. split.
    + intros r [<-|[<-|[]]]; split; reflexivity.
    + intros d Hd Ht. apply in_app_or in Hd as [[Hd|[]]|[Hd|[Hd|[]]]].
      * injection Hd as <-. discriminate Ht.
      * discriminate Hd.
      * injection Hd as <-. reflexivity.
Qed.

Lemma client_errors_propagate_witness :
  run (fun _ _ => Raise APIError) = (Raise APIError, stopped_early).
Proof.
  apply (client_errors_propagate (fun _ _ => Raise APIError) APIError).
  reflexivity.
Defined.

Lemma only_first_choices_matter_witness :
  run one_call_model
  = run (fun n r =>
           match one_call_model n r with
           | Ok c => Ok {| choices := choices c ++ choices c |}
           | Raise e => Raise e
           end).
Proof.
  apply only_first_choices_matter. intros [|n] r; reflexivity.
Defined.

End OpenaiExampleMore.
